(** * storageSyncPlugin: cross-window synchronisation of a Pinia store

    A shallow embedding of the plugin [storageSyncPlugin] (the TypeScript
    plugin whose body registers a [storage] listener and a debounced
    [$subscribe] callback) together with the pieces of the browser it
    talks to: [localStorage], the timer table behind [setTimeout] /
    [clearTimeout], and the store it is attached to.

    The repository holds the plugin twice: as a listing in its article,
    without the [storage] listener, and as the plugin proper, with it.
    The embedding follows the plugin proper; the listing's
    [syncStateToStorage] is the two lines of the flush that serialize
    and write the state.

    The plugin is written against three collaborators that are not part
    of the repository: [JSON], the Pinia store ([$state], [$patch],
    [$subscribe]) and the browser.  [JSON] and [$patch] are an interface
    here (class [JSHost]); the instance [PiniaJson] at the end of the
    definitions is a concrete JSON tree model with Pinia's merging
    [$patch], on which every definition evaluates. *)

From Stdlib Require Import Ascii.
From stdpp Require Import gmap strings list fin_maps pretty.

Set Warnings "-register-all".

Open Scope string_scope.
Open Scope list_scope.
Open Scope nat_scope.

(** ** The host: JSON and the store's patch operation *)

(** [value] is the type of JavaScript values the plugin handles: the
    store's [$state] and the results of [JSON.parse].  [JSON_parse]
    returns [None] where [JSON.parse] throws [SyntaxError]. *)
Class JSHost := {
  value : Type;
  JSON_parse : string → option value;
  JSON_stringify : value → string;
  (** [patch_state target p] is the state left by [store.$patch(p)] when
      the state was [target]. *)
  patch_state : value → value → value;
  (** [JSON.parse("")] throws. *)
  JSON_parse_empty : JSON_parse "" = None
}.

Inductive exn :=
| SyntaxError (text : string).

(** ** The window *)

Section Window.
Context `{JSHost}.

(** What the plugin does to its collaborators, in the order it does it. *)
Inductive effect :=
| GetItem (k : string)
| SetItem (k v : string)
| RemoveItem (k : string)
| Patch (v : value)
| Subscribe
| AddStorageListener
| SetTimeout (h : positive) (delay : nat)
| ClearTimeout (h : positive).

(** One window with one store.  [localStorage] is the shared channel as
    this window sees it; [timers] is the browser's table of pending
    timeouts (handle and due time, oldest first); [debounceTimer] is the
    plugin's closure variable of that name. *)
Record World := {
  localStorage : gmap string string;
  store_state : value;
  debounceTimer : option positive;
  timers : list (positive * nat);
  next_handle : positive;
  now : nat;
  subscribed : bool;
  listening : bool;
  trace : list effect
}.

Definition with_storage (f : gmap string string → gmap string string) (w : World) : World :=
  {| localStorage := f (localStorage w); store_state := store_state w;
     debounceTimer := debounceTimer w; timers := timers w;
     next_handle := next_handle w; now := now w;
     subscribed := subscribed w; listening := listening w; trace := trace w |}.

Definition with_state (s : value) (w : World) : World :=
  {| localStorage := localStorage w; store_state := s;
     debounceTimer := debounceTimer w; timers := timers w;
     next_handle := next_handle w; now := now w;
     subscribed := subscribed w; listening := listening w; trace := trace w |}.

Definition with_debounceTimer (t : option positive) (w : World) : World :=
  {| localStorage := localStorage w; store_state := store_state w;
     debounceTimer := t; timers := timers w;
     next_handle := next_handle w; now := now w;
     subscribed := subscribed w; listening := listening w; trace := trace w |}.

Definition with_timers (ts : list (positive * nat)) (w : World) : World :=
  {| localStorage := localStorage w; store_state := store_state w;
     debounceTimer := debounceTimer w; timers := ts;
     next_handle := next_handle w; now := now w;
     subscribed := subscribed w; listening := listening w; trace := trace w |}.

Definition with_next_handle (h : positive) (w : World) : World :=
  {| localStorage := localStorage w; store_state := store_state w;
     debounceTimer := debounceTimer w; timers := timers w;
     next_handle := h; now := now w;
     subscribed := subscribed w; listening := listening w; trace := trace w |}.

Definition with_now (t : nat) (w : World) : World :=
  {| localStorage := localStorage w; store_state := store_state w;
     debounceTimer := debounceTimer w; timers := timers w;
     next_handle := next_handle w; now := t;
     subscribed := subscribed w; listening := listening w; trace := trace w |}.

Definition with_subscribed (b : bool) (w : World) : World :=
  {| localStorage := localStorage w; store_state := store_state w;
     debounceTimer := debounceTimer w; timers := timers w;
     next_handle := next_handle w; now := now w;
     subscribed := b; listening := listening w; trace := trace w |}.

Definition with_listening (b : bool) (w : World) : World :=
  {| localStorage := localStorage w; store_state := store_state w;
     debounceTimer := debounceTimer w; timers := timers w;
     next_handle := next_handle w; now := now w;
     subscribed := subscribed w; listening := b; trace := trace w |}.

Definition with_trace (tr : list effect) (w : World) : World :=
  {| localStorage := localStorage w; store_state := store_state w;
     debounceTimer := debounceTimer w; timers := timers w;
     next_handle := next_handle w; now := now w;
     subscribed := subscribed w; listening := listening w; trace := tr |}.

(** ** Computations: state and exceptions *)

(** A JavaScript function either returns or throws; in both cases the
    effects it had so far stay. *)
Inductive outcome (A : Type) :=
| Returned (a : A) (w : World)
| Thrown (e : exn) (w : World).
Arguments Returned {A} a w.
Arguments Thrown {A} e w.

Definition M (A : Type) : Type := World → outcome A.

#[export] Instance M_ret : MRet M := λ A a w, Returned a w.
#[export] Instance M_bind : MBind M := λ A B f m w,
  match m w with
  | Returned a w' => f a w'
  | Thrown e w' => Thrown e w'
  end.

Definition throw {A} (e : exn) : M A := λ w, Thrown e w.

Definition world_of {A} (o : outcome A) : World :=
  match o with Returned _ w => w | Thrown _ w => w end.

Definition returns {A} (o : outcome A) : bool :=
  match o with Returned _ _ => true | Thrown _ _ => false end.

Definition gets {A} (f : World → A) : M A := λ w, Returned (f w) w.

Definition modify (f : World → World) : M unit := λ w, Returned tt (f w).

(** The empty statement, and a branch that just returns. *)
Definition skip : M unit := mret tt.

Definition log (e : effect) : M unit :=
  modify (λ w, with_trace (trace w ++ [e]) w).

(** *** localStorage *)

Definition getItem (k : string) : M (option string) :=
  log (GetItem k);; gets (λ w, localStorage w !! k).

Definition setItem (k v : string) : M unit :=
  log (SetItem k v);; modify (with_storage <[k:=v]>).

Definition removeItem (k : string) : M unit :=
  log (RemoveItem k);; modify (with_storage (delete k)).

(** JavaScript truthiness of a [string | null]: [null] and [""] are falsy. *)
Definition truthy (v : option string) : bool :=
  match v with
  | None => false
  | Some s => negb (bool_decide (s = ""))
  end.

(** *** The store and JSON *)

Definition get_state : M value := gets store_state.

(** [store.$patch(p)].  Pinia then tells the subscribers; here that
    notification is an event of its own in the window's event loop. *)
Definition dollar_patch (p : value) : M unit :=
  log (Patch p);; modify (λ w, with_state (patch_state (store_state w) p) w).

Definition parse (text : string) : M value :=
  match JSON_parse text with
  | Some v => mret v
  | None => throw (SyntaxError text)
  end.

(** *** Timers *)

(** Handles are positive, hence truthy: [if (debounceTimer)] tests for
    [null] only. *)
Definition setTimeout (delay : nat) : M positive :=
  h ← gets next_handle;
  log (SetTimeout h delay);;
  modify (λ w, with_next_handle (Pos.succ h)
                 (with_timers (timers w ++ [(h, now w + delay)]) w));;
  mret h.

Definition clearTimeout (h : positive) : M unit :=
  log (ClearTimeout h);;
  modify (λ w, with_timers (filter (λ t, t.1 ≠ h) (timers w)) w).

(** ** The plugin *)

Section Plugin.
(** [store.$id] and [window.location.href]. *)
Variable store_id : string.
Variable href : string.

Definition syncKey : string := "pinia_" +:+ store_id.
Definition sourceKey : string := "pinia_" +:+ store_id +:+ "_sourceWindow".
Definition acceptorKey : string := "pinia_" +:+ store_id +:+ "_acceptorWindow".

Definition isSourceWindow : M bool :=
  v ← getItem sourceKey;
  mret (bool_decide (v = Some href)).

Definition markAsSource : M unit :=
  v ← getItem sourceKey;
  if negb (truthy v) then
    setItem sourceKey href;;
    setItem acceptorKey "false"
  else skip.

Definition markAsAcceptor : M unit :=
  src ← isSourceWindow;
  if (src : bool) then skip
  else
    setItem acceptorKey "true";;
    removeItem sourceKey.

(** The [storage] event as the listener reads it: [event.key] and
    [event.newValue], both [string | null]. *)
Record StorageEvent := {
  key : option string;
  newValue : option string
}.

(** The listener given to [window.addEventListener('storage', ...)]. *)
Definition onStorage (event : StorageEvent) : M unit :=
  if bool_decide (key event = Some syncKey) && truthy (newValue event) then
    src ← isSourceWindow;
    if (src : bool) then skip
    else
      newState ← parse (default "" (newValue event));
      cur ← get_state;
      if negb (bool_decide (JSON_stringify cur = JSON_stringify newState)) then
        dollar_patch newState
      else skip
  else skip.

(** The function given to [setTimeout] by the subscription callback. *)
Definition onDebounce (state : value) : M unit :=
  markAsSource;;
  let newState := JSON_stringify state in
  setItem syncKey newState;;
  markAsAcceptor.

(** The callback given to [store.$subscribe].  Its [state] argument is
    the store's reactive state object itself, not a copy, and the
    closure given to [setTimeout] keeps that reference: the timeout
    runs [onDebounce] on what the store holds 300 ms later. *)
Definition onSubscribe : M unit :=
  t ← gets debounceTimer;
  match t with
  | Some h => clearTimeout h
  | None => skip
  end;;
  h ← setTimeout 300;
  modify (with_debounceTimer (Some h)).

Definition addStorageListener : M unit :=
  log AddStorageListener;; modify (with_listening true).

Definition dollar_subscribe : M unit :=
  log Subscribe;; modify (with_subscribed true).

(** [options.synchronization] is [boolean | undefined]. *)
Definition storageSyncPlugin (synchronization : option bool) : M unit :=
  if negb (default false synchronization) then skip
  else
    addStorageListener;;
    dollar_subscribe;;
    storedState ← getItem syncKey;
    (if truthy storedState then
       v ← parse (default "" storedState);
       dollar_patch v
     else skip);;
    src ← isSourceWindow;
    if negb src then markAsAcceptor else skip.

(** ** The window's event loop *)

(** What happens in the window, one task at a time: the store's state is
    mutated (the host then calls the subscriber), a [storage] event
    arrives, or time passes and the timeouts that have come due run. *)
Inductive event :=
| Mutation (s : value)
| StorageChange (e : StorageEvent)
| Elapse (ms : nat).

(** The timeouts due at the current time run in the order they were
    set; each leaves the table as it starts, and reads the store's state
    as it is then.  An exception in a task ends that task only. *)
Definition run_timers (w : World) : World :=
  let due := filter (λ t : positive * nat, (t.2 ≤ now w)%nat) (timers w) in
  let w' := with_timers (filter (λ t : positive * nat, ¬ (t.2 ≤ now w)%nat) (timers w)) w in
  foldl (λ w _, world_of (onDebounce (store_state w) w)) w' due.

Definition step (e : event) (w : World) : World :=
  match e with
  | Mutation s =>
      let w1 := with_state s w in
      if subscribed w1 then world_of (onSubscribe w1) else w1
  | StorageChange ev =>
      if listening w then world_of (onStorage ev w) else w
  | Elapse ms => run_timers (with_now (now w + ms) w)
  end.

Definition run (evs : list event) (w : World) : World :=
  foldl (λ w e, step e w) w evs.

(** The values written under the snapshot key, oldest first, and the
    patches applied to the store. *)
Definition snapshot_writes (tr : list effect) : list string :=
  omap (λ e, match e with
             | SetItem k v => if bool_decide (k = syncKey) then Some v else None
             | _ => None
             end) tr.

Definition patches (tr : list effect) : list value :=
  omap (λ e, match e with Patch v => Some v | _ => None end) tr.

(** ** Notions used to state the properties *)

(** Everything in a window but the shared channel and the trace. *)
Definition local (w : World) :=
  (store_state w, debounceTimer w, timers w, next_handle w, now w, subscribed w, listening w).

(** What one flush with serialized state [text] does to the channel. *)
Definition after_flush (text : string) (ls : gmap string string) : gmap string string :=
  let ls1 := if truthy (ls !! sourceKey) then ls
             else <[acceptorKey:="false"]> (<[sourceKey:=href]> ls) in
  let ls2 := <[syncKey:=text]> ls1 in
  if bool_decide (ls2 !! sourceKey = Some href) then ls2
  else delete sourceKey (<[acceptorKey:="true"]> ls2).

(** The last statement of the plugin: the initial role. *)
Definition init_role : M unit :=
  src ← isSourceWindow;
  if negb src then markAsAcceptor else skip.

(** The window once an enabled plugin has registered its two callbacks
    and read the snapshot. *)
Definition registered (w : World) : World :=
  with_trace (((trace w ++ [AddStorageListener]) ++ [Subscribe]) ++ [GetItem syncKey])
    (with_subscribed true (with_listening true w)).

(** The only timeout that can be pending is the one [debounceTimer]
    names. *)
Definition debounce_inv (w : World) : Prop :=
  match timers w with
  | [] => True
  | [t] => debounceTimer w = Some t.1
  | _ => False
  end.

(** A mutation has just been handled: its timeout is the only one
    pending and is due 300 ms from now. *)
Definition armed (w : World) (s : value) : Prop :=
  subscribed w = true ∧ store_state w = s ∧
  ∃ h, timers w = [(h, now w + 300)] ∧ debounceTimer w = Some h.

(** The local mutations [s1], then [s] after [g] ms for each [(g, s)] of
    [rest]. *)
Definition burst (s1 : value) (rest : list (nat * value)) : list event :=
  Mutation s1 :: flat_map (λ gs, [Elapse gs.1; Mutation gs.2]) rest.

Definition last_state (s1 : value) (rest : list (nat * value)) : value :=
  default s1 (last rest.*2).

End Plugin.
End Window.

Arguments Returned {_ A} a w.
Arguments Thrown {_ A} e w.

(** ** A concrete host: JSON trees and Pinia's merge

    Objects keep their properties in JavaScript's order (array indices
    ascending, then the other keys in creation order); numbers are the
    integers; strings are ASCII. *)

Module Json.

Inductive json :=
| JNull
| JBool (b : bool)
| JNum (n : Z)
| JStr (s : string)
| JArr (items : list json)
| JObj (props : list (string * json)).

(** *** JSON.stringify *)

Definition hex_digit (n : N) : ascii :=
  match n with
  | 0 => "0" | 1 => "1" | 2 => "2" | 3 => "3" | 4 => "4" | 5 => "5"
  | 6 => "6" | 7 => "7" | 8 => "8" | 9 => "9" | 10 => "a" | 11 => "b"
  | 12 => "c" | 13 => "d" | 14 => "e" | _ => "f"
  end%N%char.

Definition escape_char (c : ascii) : string :=
  let n := N_of_ascii c in
  if bool_decide (c = "034"%char ∨ c = "\"%char) then String "\" (String c "")
  else if bool_decide (n = 8%N) then "\b"
  else if bool_decide (n = 9%N) then "\t"
  else if bool_decide (n = 10%N) then "\n"
  else if bool_decide (n = 12%N) then "\f"
  else if bool_decide (n = 13%N) then "\r"
  else if bool_decide (n < 32)%N then
    "\u00" +:+ String (hex_digit (n / 16)) (String (hex_digit (n mod 16)) "")
  else String c "".

Fixpoint escape (s : string) : string :=
  match s with
  | "" => ""
  | String c s' => escape_char c +:+ escape s'
  end.

Definition quote (s : string) : string :=
  String "034" (escape s +:+ String "034" "").

Definition join (l : list string) : string :=
  match l with
  | [] => ""
  | x :: l' => foldl (λ acc y, acc +:+ "," +:+ y) x l'
  end.

Fixpoint stringify (v : json) : string :=
  match v with
  | JNull => "null"
  | JBool true => "true"
  | JBool false => "false"
  | JNum n => pretty n
  | JStr s => quote s
  | JArr items => "[" +:+ join (map stringify items) +:+ "]"
  | JObj props =>
      "{" +:+ join (map (λ kv, quote kv.1 +:+ ":" +:+ stringify kv.2) props) +:+ "}"
  end.

(** *** Property order of a JavaScript object *)

Definition digit_value (c : ascii) : option Z :=
  let n := N_of_ascii c in
  if ((48 <=? n) && (n <=? 57))%N then Some (Z.of_N (n - 48)) else None.

Fixpoint digits_value (acc : Z) (s : string) : option Z :=
  match s with
  | "" => Some acc
  | String c s' =>
      match digit_value c with
      | Some d => digits_value (10 * acc + d) s'
      | None => None
      end
  end.

(** An array index is a canonical numeric string below 2^32 - 1. *)
Definition array_index (k : string) : option Z :=
  match k with
  | "" => None
  | _ =>
      match digits_value 0 k with
      | Some n =>
          if bool_decide (pretty n = k) && bool_decide (n < 4294967295)%Z
          then Some n else None
      | None => None
      end
  end.

(** [obj[k] = v]: an existing property keeps its place; a new array
    index goes among the indices, in ascending order, before every other
    key; any other new key goes last. *)
Fixpoint obj_set (k : string) (v : json) (props : list (string * json)) : list (string * json) :=
  match props with
  | [] => [(k, v)]
  | (k', v') :: rest =>
      if bool_decide (k = k') then (k, v) :: rest
      else
        match array_index k, array_index k' with
        | Some n, Some n' =>
            if bool_decide (n < n')%Z then (k, v) :: props
            else (k', v') :: obj_set k v rest
        | Some _, None => (k, v) :: props
        | None, _ => (k', v') :: obj_set k v rest
        end
  end.

Fixpoint obj_get (k : string) (props : list (string * json)) : option json :=
  match props with
  | [] => None
  | (k', v') :: rest => if bool_decide (k = k') then Some v' else obj_get k rest
  end.

(** *** JSON.parse *)

Definition is_ws (c : ascii) : bool :=
  let n := N_of_ascii c in
  bool_decide (n = 32 ∨ n = 9 ∨ n = 10 ∨ n = 13)%N.

Fixpoint skip_ws (s : string) : string :=
  match s with
  | "" => ""
  | String c s' => if is_ws c then skip_ws s' else s
  end.

Fixpoint strip_prefix (p s : string) : option string :=
  match p, s with
  | "", _ => Some s
  | String a p', String b s' => if bool_decide (a = b) then strip_prefix p' s' else None
  | String _ _, "" => None
  end.

Fixpoint parse_digits (acc : Z) (s : string) : Z * string :=
  match s with
  | "" => (acc, "")
  | String c s' =>
      match digit_value c with
      | Some d => parse_digits (10 * acc + d) s'
      | None => (acc, s)
      end
  end.

(** Integers only: an optional minus sign, then 0 or a digit string with
    no leading zero.  A fraction or an exponent is outside this model
    ([None]). *)
Definition parse_number (s : string) : option (json * string) :=
  let '(neg, s1) :=
    match s with
    | String c s' => if bool_decide (c = "-"%char) then (true, s') else (false, s)
    | "" => (false, s)
    end in
  match s1 with
  | "" => None
  | String c s2 =>
      match digit_value c with
      | None => None
      | Some d =>
          let '(n, r) := if bool_decide (d = 0%Z) then (0%Z, s2) else parse_digits d s2 in
          match r with
          | String c' _ =>
              if bool_decide (c' = "."%char ∨ c' = "e"%char ∨ c' = "E"%char) then None
              else Some (JNum (if neg then - n else n)%Z, r)
          | "" => Some (JNum (if neg then - n else n)%Z, r)
          end
      end
  end.

Definition hex_value (c : ascii) : option N :=
  let n := N_of_ascii c in
  if ((48 <=? n) && (n <=? 57))%N then Some (n - 48)%N
  else if ((97 <=? n) && (n <=? 102))%N then Some (n - 87)%N
  else if ((65 <=? n) && (n <=? 70))%N then Some (n - 55)%N
  else None.

(** The character an escape sequence stands for; [\uXXXX] only below
    U+0080 (strings are byte strings here). *)
Definition unescape (e : ascii) : option ascii :=
  if bool_decide (e = "034"%char ∨ e = "\"%char ∨ e = "/"%char) then Some e
  else if bool_decide (e = "b"%char) then Some (ascii_of_N 8)
  else if bool_decide (e = "f"%char) then Some (ascii_of_N 12)
  else if bool_decide (e = "n"%char) then Some (ascii_of_N 10)
  else if bool_decide (e = "r"%char) then Some (ascii_of_N 13)
  else if bool_decide (e = "t"%char) then Some (ascii_of_N 9)
  else None.

(** The rest of a string literal, after its opening quote. *)
Fixpoint parse_chars (s : string) : option (string * string) :=
  match s with
  | "" => None
  | String c r =>
      if bool_decide (c = "034"%char) then Some ("", r)
      else if bool_decide (c = "\"%char) then
        match r with
        | String e r1 =>
            if bool_decide (e = "u"%char) then
              match r1 with
              | String h1 (String h2 (String h3 (String h4 r2))) =>
                  match hex_value h1, hex_value h2, hex_value h3, hex_value h4 with
                  | Some 0%N, Some 0%N, Some a, Some b =>
                      if bool_decide (a < 8)%N then
                        '(str, r') ← parse_chars r2;
                        Some (String (ascii_of_N (16 * a + b)) str, r')
                      else None
                  | _, _, _, _ => None
                  end
              | _ => None
              end
            else
              c' ← unescape e;
              '(str, r') ← parse_chars r1;
              Some (String c' str, r')
        | "" => None
        end
      else if bool_decide (N_of_ascii c < 32)%N then None
      else
        '(str, r') ← parse_chars r;
        Some (String c str, r')
  end.

Fixpoint parse_value (fuel : nat) (s : string) : option (json * string) :=
  match fuel with
  | O => None
  | S fuel =>
      match skip_ws s with
      | "" => None
      | String c r as s' =>
          if bool_decide (c = "n"%char) then r' ← strip_prefix "ull" r; Some (JNull, r')
          else if bool_decide (c = "t"%char) then r' ← strip_prefix "rue" r; Some (JBool true, r')
          else if bool_decide (c = "f"%char) then r' ← strip_prefix "alse" r; Some (JBool false, r')
          else if bool_decide (c = "034"%char) then
            '(str, r') ← parse_chars r; Some (JStr str, r')
          else if bool_decide (c = "["%char) then
            match strip_prefix "]" (skip_ws r) with
            | Some r' => Some (JArr [], r')
            | None => '(items, r') ← parse_elements fuel r; Some (JArr items, r')
            end
          else if bool_decide (c = "{"%char) then
            match strip_prefix "}" (skip_ws r) with
            | Some r' => Some (JObj [], r')
            | None => '(props, r') ← parse_members fuel [] r; Some (JObj props, r')
            end
          else parse_number s'
      end
  end
with parse_elements (fuel : nat) (s : string) : option (list json * string) :=
  match fuel with
  | O => None
  | S fuel =>
      '(v, r) ← parse_value fuel s;
      match skip_ws r with
      | "" => None
      | String c r1 =>
          if bool_decide (c = ","%char) then
            '(vs, r2) ← parse_elements fuel r1; Some (v :: vs, r2)
          else if bool_decide (c = "]"%char) then Some ([v], r1)
          else None
      end
  end
with parse_members (fuel : nat) (acc : list (string * json)) (s : string)
    : option (list (string * json) * string) :=
  match fuel with
  | O => None
  | S fuel =>
      r ← strip_prefix (String "034" "") (skip_ws s);
      '(k, r1) ← parse_chars r;
      r2 ← strip_prefix ":" (skip_ws r1);
      '(v, r3) ← parse_value fuel r2;
      let acc' := obj_set k v acc in
      match skip_ws r3 with
      | "" => None
      | String c r4 =>
          if bool_decide (c = ","%char) then parse_members fuel acc' r4
          else if bool_decide (c = "}"%char) then Some (acc', r4)
          else None
      end
  end.

Definition parse_json (s : string) : option json :=
  '(v, r) ← parse_value (2 * String.length s + 2) s;
  if bool_decide (skip_ws r = "") then Some v else None.

(** JSON texts are written with an apostrophe for each double quote. *)
Fixpoint js (s : string) : string :=
  match s with
  | "" => ""
  | String c s' => String (if bool_decide (c = "'"%char) then "034"%char else c) (js s')
  end.

(** *** The store's [$patch] *)

Definition isPlainObject (v : json) : bool :=
  match v with JObj _ => true | _ => false end.

(** [target[key] = ...] in the loop of Pinia's [mergeReactiveObjects]:
    where the target's own value and the patch's value under [key] are
    both plain objects they are merged, otherwise the patch's value
    replaces the target's. *)
Definition merge_key (target : list (string * json)) (k : string) (subPatch : json)
    (merged : list (string * json) → list (string * json)) : list (string * json) :=
  match obj_get k target with
  | Some (JObj targetValue) =>
      if isPlainObject subPatch then obj_set k (JObj (merged targetValue)) target
      else obj_set k subPatch target
  | _ => obj_set k subPatch target
  end.

(** Pinia's [mergeReactiveObjects(target, patchToApply)] on JSON trees:
    the loop [for (const key in patchToApply)] runs over the properties
    of an object, the indices of an array and of a string, and over
    nothing for [null], a boolean or a number. *)
Fixpoint mergeReactiveObjects (target : list (string * json)) (patchToApply : json)
    {struct patchToApply} : list (string * json) :=
  match patchToApply with
  | JObj props =>
      (fix each (ps : list (string * json)) (t : list (string * json)) :=
         match ps with
         | [] => t
         | (k, subPatch) :: ps' =>
             each ps' (merge_key t k subPatch (λ tv, mergeReactiveObjects tv subPatch))
         end) props target
  | JArr items =>
      (fix each (i : Z) (xs : list json) (t : list (string * json)) :=
         match xs with
         | [] => t
         | x :: xs' =>
             each (i + 1)%Z xs' (merge_key t (pretty i) x (λ tv, mergeReactiveObjects tv x))
         end) 0%Z items target
  | JStr s =>
      (fix each (i : Z) (s : string) (t : list (string * json)) :=
         match s with
         | "" => t
         | String c s' => each (i + 1)%Z s' (obj_set (pretty i) (JStr (String c "")) t)
         end) 0%Z s target
  | _ => target
  end.

(** [store.$patch(p)] with a patch object; the store's state is an
    object. *)
Definition dollar_patch_state (state p : json) : json :=
  match state with
  | JObj target => JObj (mergeReactiveObjects target p)
  | _ => state
  end.

End Json.

(** The host used to run the model: JSON trees, and a Pinia store. *)
#[export] Instance PiniaJson : JSHost := {|
  value := Json.json;
  JSON_parse := Json.parse_json;
  JSON_stringify := Json.stringify;
  patch_state := Json.dollar_patch_state;
  JSON_parse_empty := eq_refl
|}.

Import Json.

(** A window that has just been opened on a store with state [s], next
    to a shared channel holding [ls]. *)
Definition fresh_window `{JSHost} (ls : gmap string string) (s : value) : World :=
  {| localStorage := ls; store_state := s; debounceTimer := None; timers := [];
     next_handle := 1%positive; now := 0; subscribed := false; listening := false;
     trace := [] |}.

(** The window used in the examples: store [S] in a window at
    [http://localhost/a], on the host [PiniaJson]. *)

Definition href_a : string := "http://localhost/a".

Definition count (n : Z) : @value PiniaJson := JObj [("count", JNum n)].

Definition window_a (ls : gmap string string) (s : @value PiniaJson) : World :=
  fresh_window ls s.

(** The same window once the plugin has been attached (the construction
    has run, returning or not). *)
Definition attached (ls : gmap string string) (s : @value PiniaJson) : World :=
  world_of (storageSyncPlugin "S" href_a (Some true) (window_a ls s)).

Definition snapshot_event (text : string) : StorageEvent :=
  {| key := Some "pinia_S"; newValue := Some text |}.

(** ** The plugin as the article lists it

    The listing has no [storage] listener and names the two lines that
    serialize and write the state; the role helpers and the
    subscription callback are those of the plugin proper. *)

Module Listing.
Section Plugin.
Context `{JSHost}.
Variable store_id : string.
Variable href : string.

Definition syncStateToStorage (state : value) : M unit :=
  let newState := JSON_stringify state in
  setItem (syncKey store_id) newState.

(** The function the listing gives to [setTimeout]. *)
Definition onDebounce (state : value) : M unit :=
  markAsSource store_id href;;
  syncStateToStorage state;;
  markAsAcceptor store_id href.

Definition storageSyncPlugin (synchronization : option bool) : M unit :=
  if negb (default false synchronization) then skip
  else
    dollar_subscribe;;
    storedState ← getItem (syncKey store_id);
    (if truthy storedState then
       v ← parse (default "" storedState);
       dollar_patch v
     else skip);;
    src ← isSourceWindow store_id href;
    if negb src then markAsAcceptor store_id href else skip.

End Plugin.
End Listing.

(** ** The window on a Pinia store, with a URL that may change

    Pinia's [$patch] calls the subscribers before it returns, and the
    plugin subscribes before its listener can patch; and
    [window.location.href] is read anew each time a helper runs, so here
    it comes with each event. *)

Module Notifying.
Section Plugin.
Context `{JSHost}.
Variable store_id : string.

(** [store.$patch(p)] followed by Pinia's call of the subscriber. *)
Definition dollar_patch_notify (p : value) : M unit :=
  dollar_patch p;;
  s ← gets subscribed;
  if (s : bool) then onSubscribe else skip.

(** The listener of the plugin proper, on such a store. *)
Definition onStorage (href : string) (event : StorageEvent) : M unit :=
  if bool_decide (key event = Some (syncKey store_id)) && truthy (newValue event) then
    src ← isSourceWindow store_id href;
    if (src : bool) then skip
    else
      newState ← parse (default "" (newValue event));
      cur ← get_state;
      if negb (bool_decide (JSON_stringify cur = JSON_stringify newState)) then
        dollar_patch_notify newState
      else skip
  else skip.

(** The plugin proper, on such a store: the subscription is registered
    before the snapshot is patched in. *)
Definition storageSyncPlugin (href : string) (synchronization : option bool) : M unit :=
  if negb (default false synchronization) then skip
  else
    addStorageListener;;
    dollar_subscribe;;
    storedState ← getItem (syncKey store_id);
    (if truthy storedState then
       v ← parse (default "" storedState);
       dollar_patch_notify v
     else skip);;
    src ← isSourceWindow store_id href;
    if negb src then markAsAcceptor store_id href else skip.

(** One event, with the window's URL when it happens. *)
Definition step (href : string) (e : event) (w : World) : World :=
  match e with
  | StorageChange ev => if listening w then world_of (onStorage href ev w) else w
  | _ => step store_id href e w
  end.

Definition run (hevs : list (string * event)) (w : World) : World :=
  foldl (λ w he, step he.1 he.2 w) w hevs.

End Plugin.
End Notifying.

(** ** More notions used to state the properties *)

(** How many times the subscriber is told of a mutation. *)
Fixpoint count_mutations `{JSHost} (evs : list event) : nat :=
  match evs with
  | [] => 0
  | Mutation _ :: evs' => S (count_mutations evs')
  | _ :: evs' => count_mutations evs'
  end.

(** The notification another window gets for the snapshot [text]. *)
Definition snapshot_notification (store_id text : string) : StorageEvent :=
  {| key := Some (syncKey store_id); newValue := Some text |}.

(** A second window, on another URL. *)
Definition href_b : string := "http://localhost/b".

(** * Properties *)

Create HintDb keys.

Section Properties.
Context `{JSHost}.
Variable store_id : string.
Variable href : string.

#[local] Abbreviation syncKey := (syncKey store_id).
#[local] Abbreviation sourceKey := (sourceKey store_id).
#[local] Abbreviation acceptorKey := (acceptorKey store_id).
#[local] Abbreviation isSourceWindow := (isSourceWindow store_id href).
#[local] Abbreviation markAsSource := (markAsSource store_id href).
#[local] Abbreviation markAsAcceptor := (markAsAcceptor store_id href).
#[local] Abbreviation onStorage := (onStorage store_id href).
#[local] Abbreviation onDebounce := (onDebounce store_id href).
#[local] Abbreviation storageSyncPlugin := (storageSyncPlugin store_id href).
#[local] Abbreviation after_flush := (after_flush store_id href).
#[local] Abbreviation init_role := (init_role store_id href).
#[local] Abbreviation registered := (registered store_id).

(** ** The three keys of a store are distinct *)

Lemma string_length_app (a b : string) :
  String.length (a +:+ b) = String.length a + String.length b.
Proof. induction a as [|c a IH]; simpl; [done | by rewrite IH]. Qed.

Lemma sync_source_ne : syncKey ≠ sourceKey.
Proof.
  unfold syncKey, sourceKey. intros E.
  apply (f_equal String.length) in E.
  rewrite !string_length_app in E. simpl in E. lia.
Qed.

Lemma sync_acceptor_ne : syncKey ≠ acceptorKey.
Proof.
  unfold syncKey, acceptorKey. intros E.
  apply (f_equal String.length) in E.
  rewrite !string_length_app in E. simpl in E. lia.
Qed.

Lemma source_acceptor_ne : sourceKey ≠ acceptorKey.
Proof.
  unfold sourceKey, acceptorKey. intros E.
  apply (inj (String.app "pinia_")) in E.
  apply (inj (String.app store_id)) in E. discriminate E.
Qed.

Lemma source_sync_ne : sourceKey ≠ syncKey.
Proof. intros E. by apply sync_source_ne. Qed.

Lemma acceptor_sync_ne : acceptorKey ≠ syncKey.
Proof. intros E. by apply sync_acceptor_ne. Qed.

Lemma acceptor_source_ne : acceptorKey ≠ sourceKey.
Proof. intros E. by apply source_acceptor_ne. Qed.

#[local] Hint Resolve sync_source_ne sync_acceptor_ne source_acceptor_ne
  source_sync_ne acceptor_sync_ne acceptor_source_ne : keys.

(** ** Reading a trace *)

Lemma snapshot_writes_app tr1 tr2 :
  snapshot_writes store_id (tr1 ++ tr2) = snapshot_writes store_id tr1 ++ snapshot_writes store_id tr2.
Proof. apply omap_app. Qed.

Lemma patches_app tr1 tr2 : patches (tr1 ++ tr2) = patches tr1 ++ patches tr2.
Proof. apply omap_app. Qed.

Ltac unfold_m :=
  unfold onStorage, onDebounce, onSubscribe,
    storageSyncPlugin, markAsSource, markAsAcceptor,
    isSourceWindow, addStorageListener, dollar_subscribe, dollar_patch,
    get_state, setTimeout, clearTimeout, getItem, setItem, removeItem, log, modify,
    gets, skip, throw;
  unfold mbind, M_bind, mret, M_ret; simpl.

Ltac keys :=
  rewrite ?lookup_insert_eq, ?lookup_delete_eq;
  repeat first
    [ rewrite lookup_insert_ne by (auto with keys)
    | rewrite lookup_delete_ne by (auto with keys) ];
  rewrite ?lookup_insert_eq, ?lookup_delete_eq.

Ltac traces :=
  simpl; rewrite ?snapshot_writes_app, ?patches_app; simpl;
  repeat rewrite (bool_decide_eq_false_2 (_ = syncKey)) by (auto with keys);
  rewrite ?bool_decide_eq_true_2 by reflexivity;
  rewrite ?app_nil_r.

(** ** The role helpers *)

Lemma markAsSource_spec w :
  ∃ w', markAsSource w = Returned tt w' ∧
    localStorage w' =
      (if truthy (localStorage w !! sourceKey) then localStorage w
       else <[acceptorKey:="false"]> (<[sourceKey:=href]> (localStorage w))) ∧
    local w' = local w ∧
    snapshot_writes store_id (trace w') = snapshot_writes store_id (trace w) ∧
    patches (trace w') = patches (trace w).
Proof.
  unfold_m. destruct (truthy (localStorage w !! sourceKey)); simpl;
    (eexists; split; [reflexivity|]); simpl; repeat split; by traces.
Qed.

Lemma markAsAcceptor_spec w :
  ∃ w', markAsAcceptor w = Returned tt w' ∧
    localStorage w' =
      (if bool_decide (localStorage w !! sourceKey = Some href) then localStorage w
       else delete sourceKey (<[acceptorKey:="true"]> (localStorage w))) ∧
    local w' = local w ∧
    snapshot_writes store_id (trace w') = snapshot_writes store_id (trace w) ∧
    patches (trace w') = patches (trace w).
Proof.
  unfold_m. case_bool_decide; simpl;
    (eexists; split; [reflexivity|]); simpl; repeat split; by traces.
Qed.

Lemma bind_Returned {A B} (m : M A) (f : A → M B) w a w1 :
  m w = Returned a w1 → (m ≫= f) w = f a w1.
Proof. intros E. unfold mbind, M_bind. by rewrite E. Qed.

Lemma isSourceWindow_eq w :
  isSourceWindow w =
    Returned (bool_decide (localStorage w !! sourceKey = Some href))
      (with_trace (trace w ++ [GetItem sourceKey]) w).
Proof. reflexivity. Qed.

Lemma setItem_eq k v w :
  setItem k v w =
    Returned tt (with_storage <[k:=v]> (with_trace (trace w ++ [SetItem k v]) w)).
Proof. reflexivity. Qed.

(** ** The flush *)

Lemma onDebounce_spec state w :
  ∃ w', onDebounce state w = Returned tt w' ∧
    localStorage w' = after_flush (JSON_stringify state) (localStorage w) ∧
    local w' = local w ∧
    snapshot_writes store_id (trace w') =
      snapshot_writes store_id (trace w) ++ [JSON_stringify state] ∧
    patches (trace w') = patches (trace w).
Proof.
  destruct (markAsSource_spec w) as (w1 & E1 & L1 & F1 & S1 & P1).
  pose proof (setItem_eq syncKey (JSON_stringify state) w1) as E2.
  set (w2 := with_storage _ _) in E2.
  destruct (markAsAcceptor_spec w2) as (w3 & E3 & L3 & F3 & S3 & P3).
  exists w3. split.
  { unfold onDebounce.
    rewrite (bind_Returned _ _ _ _ _ E1), (bind_Returned _ _ _ _ _ E2). exact E3. }
  subst w2. simpl in *. rewrite L3, F3, S3, P3, L1, <- F1, <- P1, <- S1.
  unfold after_flush. repeat split; by traces.
Qed.

(** C1 (what the code does): a flush in a window that holds the
    SourceMarker when the release step runs, because it claimed the
    marker in this flush (no marker, or an empty one, before) or held it
    already, leaves the marker in place; the AcceptorFlag is ['false']
    after a claim and untouched otherwise. *)
Theorem C1_flush_keeps_source_marker state w :
  truthy (localStorage w !! sourceKey) = false ∨ localStorage w !! sourceKey = Some href →
  ∃ w', onDebounce state w = Returned tt w' ∧
    localStorage w' !! sourceKey = Some href ∧
    localStorage w' !! acceptorKey =
      (if truthy (localStorage w !! sourceKey) then localStorage w !! acceptorKey
       else Some "false").
Proof.
  intros Hheld.
  destruct (onDebounce_spec state w) as (w' & E & L & _).
  exists w'. split; [exact E|]. rewrite L. unfold after_flush.
  destruct (truthy (localStorage w !! sourceKey)) eqn:Ht.
  - destruct Hheld as [|Hs]; [done|].
    rewrite bool_decide_eq_true_2 by (by keys). split; by keys.
  - rewrite bool_decide_eq_true_2 by (by keys). split; by keys.
Qed.

(** C4: a snapshot notification that arrives while the stored source
    value is this window's identity is ignored: the listener returns, no
    patch is applied, and the store's state and the channel are as they
    were. *)
Theorem C4_source_window_ignores ev w :
  localStorage w !! sourceKey = Some href →
  ∃ w', onStorage ev w = Returned tt w' ∧
    store_state w' = store_state w ∧
    patches (trace w') = patches (trace w) ∧
    localStorage w' = localStorage w.
Proof.
  intros Hsrc. unfold_m.
  destruct (bool_decide (key ev = Some syncKey) && truthy (newValue ev)); simpl.
  - rewrite bool_decide_eq_true_2 by done.
    eexists; split; [reflexivity|]; simpl; repeat split; by traces.
  - by exists w.
Qed.

(** C10: a notification for another key (the SourceMarker and
    AcceptorFlag keys included, and a [null] key), or one whose new
    value is [null] or the empty string, leaves the window exactly as it
    was: nothing is read, written or patched. *)
Theorem C10_other_notifications ev w :
  key ev ≠ Some syncKey ∨ newValue ev = None ∨ newValue ev = Some "" →
  onStorage ev w = Returned tt w.
Proof.
  intros Hev. unfold onStorage.
  destruct Hev as [Hk | [Hv | Hv]].
  - by rewrite bool_decide_eq_false_2.
  - rewrite Hv. simpl. by rewrite andb_false_r.
  - rewrite Hv. simpl. by rewrite andb_false_r.
Qed.

(** ** The storage listener *)

Lemma truthy_Some raw : truthy (Some raw) = negb (bool_decide (raw = "")).
Proof. reflexivity. Qed.

Lemma onStorage_skip ev w :
  bool_decide (key ev = Some syncKey) && truthy (newValue ev) = false →
  onStorage ev w = Returned tt w.
Proof. intros E. unfold onStorage. by rewrite E. Qed.

Lemma onStorage_source ev w :
  localStorage w !! sourceKey = Some href →
  ∃ w', onStorage ev w = Returned tt w' ∧ local w' = local w ∧
    patches (trace w') = patches (trace w) ∧ localStorage w' = localStorage w.
Proof.
  intros Hsrc. unfold_m.
  destruct (bool_decide (key ev = Some syncKey) && truthy (newValue ev)); simpl.
  - rewrite bool_decide_eq_true_2 by done.
    eexists; split; [reflexivity|]; simpl; repeat split; by traces.
  - by exists w.
Qed.

(** The listener's path for a snapshot notification in a window that is
    not the source. *)
Lemma onStorage_acceptor ev raw w :
  key ev = Some syncKey → newValue ev = Some raw → raw ≠ "" →
  localStorage w !! sourceKey ≠ Some href →
  onStorage ev w =
    let w1 := with_trace (trace w ++ [GetItem sourceKey]) w in
    match JSON_parse raw with
    | None => Thrown (SyntaxError raw) w1
    | Some v =>
        if bool_decide (JSON_stringify (store_state w) = JSON_stringify v)
        then Returned tt w1
        else Returned tt
               (with_state (patch_state (store_state w) v)
                  (with_trace (trace w1 ++ [Patch v]) w1))
    end.
Proof.
  intros Hk Hv Hne Hsrc. unfold onStorage.
  rewrite Hk, Hv, truthy_Some, bool_decide_eq_true_2, (bool_decide_eq_false_2 (raw = ""))
    by done.
  unfold_m. rewrite bool_decide_eq_false_2 by done.
  unfold parse. destruct (JSON_parse raw) as [v|]; [|done].
  simpl. by case_bool_decide.
Qed.

(** ** Construction *)

Lemma init_role_spec w :
  ∃ w', init_role w = Returned tt w' ∧
    localStorage w' =
      (if bool_decide (localStorage w !! sourceKey = Some href) then localStorage w
       else delete sourceKey (<[acceptorKey:="true"]> (localStorage w))) ∧
    local w' = local w ∧
    snapshot_writes store_id (trace w') = snapshot_writes store_id (trace w) ∧
    patches (trace w') = patches (trace w).
Proof.
  unfold init_role. unfold_m. case_bool_decide as Hsrc; simpl.
  - eexists; split; [reflexivity|]; simpl; repeat split; by traces.
  - rewrite bool_decide_eq_false_2 by done.
    eexists; split; [reflexivity|]; simpl; repeat split; by traces.
Qed.

(** An enabled plugin then replays the snapshot, unless parsing it
    throws, and takes its role. *)
Lemma storageSyncPlugin_enabled w :
  storageSyncPlugin (Some true) w =
    let w1 := registered w in
    match localStorage w !! syncKey with
    | None => init_role w1
    | Some raw =>
        if bool_decide (raw = "") then init_role w1
        else match JSON_parse raw with
             | None => Thrown (SyntaxError raw) w1
             | Some v =>
                 init_role (with_state (patch_state (store_state w) v)
                              (with_trace (trace w1 ++ [Patch v]) w1))
             end
    end.
Proof.
  unfold storageSyncPlugin, addStorageListener, dollar_subscribe, getItem.
  fold init_role. unfold log, gets, modify, mbind, M_bind. simpl.
  destruct (localStorage w !! syncKey) as [raw|]; simpl; [|reflexivity].
  case_bool_decide; simpl; [reflexivity|].
  unfold parse. destruct (JSON_parse raw); simpl; reflexivity.
Qed.

Lemma storageSyncPlugin_disabled sync w :
  sync = None ∨ sync = Some false → storageSyncPlugin sync w = Returned tt w.
Proof. by intros [-> | ->]. Qed.

Lemma onDebounce_returns state w : returns (onDebounce state w) = true.
Proof. destruct (onDebounce_spec state w) as (w' & -> & _). done. Qed.

Lemma onSubscribe_returns w : returns (onSubscribe w) = true.
Proof. unfold_m. by destruct (debounceTimer w). Qed.

Lemma init_role_returns w : returns (init_role w) = true.
Proof. destruct (init_role_spec w) as (w' & -> & _). done. Qed.

Lemma storageSyncPlugin_throws sync w :
  returns (storageSyncPlugin sync w) = false ↔
  sync = Some true ∧
  ∃ raw, localStorage w !! syncKey = Some raw ∧ raw ≠ "" ∧ JSON_parse raw = None.
Proof.
  destruct sync as [[|]|]; cycle 1.
  - split; [done | by intros [? _]].
  - split; [done | by intros [? _]].
  - rewrite storageSyncPlugin_enabled. simpl.
    destruct (localStorage w !! syncKey) as [raw|] eqn:Hraw.
    + case_bool_decide as He.
      * rewrite init_role_returns. split; [done|]. intros (_ & raw' & ? & ? & _). congruence.
      * destruct (JSON_parse raw) as [v|] eqn:Hp.
        -- rewrite init_role_returns. split; [done|].
           intros (_ & raw' & ? & _ & ?). congruence.
        -- simpl. split; [|done]. intros _. split; [done|]. by exists raw.
    + rewrite init_role_returns. split; [done|]. by intros (_ & raw' & ? & _).
Qed.

Lemma onStorage_throws ev w :
  returns (onStorage ev w) = false ↔
  key ev = Some syncKey ∧
  ∃ raw, newValue ev = Some raw ∧ raw ≠ "" ∧ JSON_parse raw = None ∧
         localStorage w !! sourceKey ≠ Some href.
Proof.
  destruct (decide (localStorage w !! sourceKey = Some href)) as [Hsrc|Hsrc].
  { destruct (onStorage_source ev w Hsrc) as (w' & -> & _).
    split; [done|]. by intros (_ & raw & _ & _ & _ & ?). }
  destruct (bool_decide (key ev = Some syncKey) && truthy (newValue ev)) eqn:Hact.
  - apply andb_true_iff in Hact as [Hk%bool_decide_eq_true Ht].
    destruct (newValue ev) as [raw|] eqn:Hv; [|done].
    rewrite truthy_Some in Ht. apply negb_true_iff, bool_decide_eq_false in Ht.
    rewrite (onStorage_acceptor ev raw w) by done. simpl.
    destruct (JSON_parse raw) as [v|] eqn:Hp.
    + split.
      * by case_bool_decide.
      * intros (_ & raw' & ? & _ & ? & _). congruence.
    + simpl. split; [|done]. intros _. split; [done|]. by exists raw.
  - rewrite onStorage_skip by done. split; [done|].
    intros (Hk & raw & Hv & Hne & _). rewrite Hk, Hv, truthy_Some in Hact.
    rewrite bool_decide_eq_true_2, (bool_decide_eq_false_2 (raw = "")) in Hact by done.
    done.
Qed.

(** C2 (as the code has it): a notification whose new value is not valid
    JSON never changes the store's state, applies no patch and leaves
    the channel alone; the listener returns when the notification is for
    another key, the value is empty or this window holds the
    SourceMarker, and otherwise the [SyntaxError] of [JSON.parse] leaves
    the listener uncaught. *)
Theorem C2_invalid_snapshot_text ev raw w :
  newValue ev = Some raw → JSON_parse raw = None →
  store_state (world_of (onStorage ev w)) = store_state w ∧
  patches (trace (world_of (onStorage ev w))) = patches (trace w) ∧
  localStorage (world_of (onStorage ev w)) = localStorage w ∧
  (if bool_decide (key ev = Some syncKey ∧ raw ≠ "" ∧
                   localStorage w !! sourceKey ≠ Some href)
   then ∃ w', onStorage ev w = Thrown (SyntaxError raw) w'
   else ∃ w', onStorage ev w = Returned tt w').
Proof.
  intros Hv Hp.
  destruct (decide (localStorage w !! sourceKey = Some href)) as [Hsrc|Hsrc].
  { destruct (onStorage_source ev w Hsrc) as (w' & E & F & P & L). rewrite E. simpl.
    repeat split; [by injection F | done | done |].
    rewrite bool_decide_eq_false_2 by (by intros (_ & _ & ?)). by exists w'. }
  destruct (bool_decide (key ev = Some syncKey) && truthy (newValue ev)) eqn:Hact.
  - apply andb_true_iff in Hact as [Hk%bool_decide_eq_true Ht].
    rewrite Hv, truthy_Some in Ht. apply negb_true_iff, bool_decide_eq_false in Ht.
    rewrite (onStorage_acceptor ev raw w), Hp by done. simpl.
    repeat split; [by traces|]. rewrite bool_decide_eq_true_2 by done. by eexists.
  - rewrite onStorage_skip by done. simpl. repeat split.
    rewrite bool_decide_eq_false_2; [by exists w|].
    intros (Hk & Hne & _). rewrite Hk, Hv, truthy_Some in Hact.
    rewrite bool_decide_eq_true_2, (bool_decide_eq_false_2 (raw = "")) in Hact by done.
    done.
Qed.

(** C3 (as the code has it): with a channel and a store whose own
    operations do not fail, the subscription callback and the flush
    never throw, and neither does a disabled plugin; construction throws
    exactly when the channel holds a non-empty snapshot that is not
    valid JSON, and the listener exactly when a non-source window is
    notified of such a snapshot.  Nothing catches the [SyntaxError]. *)
Theorem C3_throws_exactly_on_invalid_json :
  (∀ w, returns (onSubscribe w) = true) ∧
  (∀ state w, returns (onDebounce state w) = true) ∧
  (∀ sync w,
     returns (storageSyncPlugin sync w) = false ↔
     sync = Some true ∧
     ∃ raw, localStorage w !! syncKey = Some raw ∧ raw ≠ "" ∧ JSON_parse raw = None) ∧
  (∀ ev w,
     returns (onStorage ev w) = false ↔
     key ev = Some syncKey ∧
     ∃ raw, newValue ev = Some raw ∧ raw ≠ "" ∧ JSON_parse raw = None ∧
            localStorage w !! sourceKey ≠ Some href).
Proof.
  split; [exact onSubscribe_returns|].
  split; [exact onDebounce_returns|].
  split; [exact storageSyncPlugin_throws | exact onStorage_throws].
Qed.

(** C5 (as the code has it): in a window that is not the source, a
    snapshot notification with valid JSON is applied with [$patch]
    exactly when the serialization of the store's state differs from the
    serialization of the parsed value; and the same notification once
    more applies nothing when the state left by the first delivery
    serializes as the parsed value does. *)
Theorem C5_patch_iff_serializations_differ ev raw v w :
  key ev = Some syncKey → newValue ev = Some raw → JSON_parse raw = Some v →
  localStorage w !! sourceKey ≠ Some href →
  ∃ w1, onStorage ev w = Returned tt w1 ∧
    (JSON_stringify (store_state w) ≠ JSON_stringify v →
       store_state w1 = patch_state (store_state w) v ∧
       patches (trace w1) = patches (trace w) ++ [v]) ∧
    (JSON_stringify (store_state w) = JSON_stringify v →
       store_state w1 = store_state w ∧ patches (trace w1) = patches (trace w)) ∧
    (JSON_stringify (store_state w1) = JSON_stringify v →
       ∃ w2, onStorage ev w1 = Returned tt w2 ∧
         store_state w2 = store_state w1 ∧ patches (trace w2) = patches (trace w1)).
Proof.
  intros Hk Hv Hp Hsrc.
  assert (raw ≠ "") as Hne.
  { intros ->. rewrite JSON_parse_empty in Hp. done. }
  assert (∀ w0, localStorage w0 !! sourceKey ≠ Some href →
            JSON_stringify (store_state w0) = JSON_stringify v →
            onStorage ev w0 = Returned tt (with_trace (trace w0 ++ [GetItem sourceKey]) w0))
    as Hsame.
  { intros w0 Hsrc0 Heq. rewrite (onStorage_acceptor ev raw w0), Hp by done.
    simpl. by rewrite bool_decide_eq_true_2. }
  destruct (decide (JSON_stringify (store_state w) = JSON_stringify v)) as [Heq|Hdiff].
  - eexists. split; [by apply Hsame|]. simpl. repeat split; try done; try by traces.
    intros _. eexists. split; [by apply Hsame|]. simpl. split; [done | by traces].
  - rewrite (onStorage_acceptor ev raw w), Hp by done. simpl.
    rewrite bool_decide_eq_false_2 by done.
    eexists. split; [reflexivity|]. simpl. repeat split; try done; try by traces.
    intros Heq. eexists. split; [by apply Hsame|]. simpl. split; [done | by traces].
Qed.

(** C7 (as the code has it): the flush is the claim step, then the
    snapshot write, then the release step, and it returns.  The claim
    step writes this window's identity under the SourceMarker key and
    ['false'] under the AcceptorFlag key when the SourceMarker is absent
    or the empty string, and changes nothing in the channel when it is a
    non-empty string; the serialized state is written under the snapshot
    key in both cases, once, and is there when the flush ends. *)
Theorem C7_claim_then_write state w :
  ∃ w1 w2 w3,
    markAsSource w = Returned tt w1 ∧
    setItem syncKey (JSON_stringify state) w1 = Returned tt w2 ∧
    markAsAcceptor w2 = Returned tt w3 ∧
    onDebounce state w = Returned tt w3 ∧
    (if truthy (localStorage w !! sourceKey)
     then localStorage w1 = localStorage w
     else localStorage w1 !! sourceKey = Some href ∧
          localStorage w1 !! acceptorKey = Some "false" ∧
          ∀ k, k ≠ sourceKey → k ≠ acceptorKey →
               localStorage w1 !! k = localStorage w !! k) ∧
    localStorage w2 = <[syncKey:=JSON_stringify state]> (localStorage w1) ∧
    snapshot_writes store_id (trace w3) =
      snapshot_writes store_id (trace w) ++ [JSON_stringify state] ∧
    localStorage w3 !! syncKey = Some (JSON_stringify state).
Proof.
  destruct (markAsSource_spec w) as (w1 & E1 & L1 & F1 & S1 & P1).
  pose proof (setItem_eq syncKey (JSON_stringify state) w1) as E2.
  set (w2 := with_storage _ _) in E2.
  destruct (markAsAcceptor_spec w2) as (w3 & E3 & L3 & F3 & S3 & P3).
  exists w1, w2, w3. repeat split; try done.
  - unfold onDebounce.
    rewrite (bind_Returned _ _ _ _ _ E1), (bind_Returned _ _ _ _ _ E2). exact E3.
  - rewrite L1. destruct (truthy (localStorage w !! sourceKey)); [done|].
    repeat split; [by keys | by keys |].
    intros k ??. by rewrite !lookup_insert_ne.
  - rewrite S3. subst w2. simpl. rewrite <- S1. by traces.
  - rewrite L3. clear E3 L3 F3 S3 P3. subst w2. simpl. case_bool_decide; by keys.
Qed.

(** C8 (as the code has it): when the snapshot entry is absent, empty or
    valid JSON, construction returns; the value of a valid snapshot has
    then been applied with [$patch], once, and nothing has been written
    under the snapshot key; an empty entry has been skipped; and a
    window that does not hold the SourceMarker has set the AcceptorFlag
    to ['true'] and removed the SourceMarker.  When the entry is
    non-empty and not valid JSON, construction throws the [SyntaxError]
    before either step: no patch is applied, the store's state is as it
    was, and the channel is unchanged, so the window has not become
    acceptor. *)
Theorem C8_cold_start_replay w :
  ((∀ raw, localStorage w !! syncKey = Some raw → raw = "" ∨ is_Some (JSON_parse raw)) →
   ∃ w', storageSyncPlugin (Some true) w = Returned tt w' ∧
     (∀ raw v, localStorage w !! syncKey = Some raw → JSON_parse raw = Some v →
        store_state w' = patch_state (store_state w) v ∧
        patches (trace w') = patches (trace w) ++ [v]) ∧
     (localStorage w !! syncKey = Some "" →
        store_state w' = store_state w ∧ patches (trace w') = patches (trace w)) ∧
     snapshot_writes store_id (trace w') = snapshot_writes store_id (trace w) ∧
     (localStorage w !! sourceKey ≠ Some href →
        localStorage w' !! acceptorKey = Some "true" ∧
        localStorage w' !! sourceKey = None)) ∧
  (∀ raw, localStorage w !! syncKey = Some raw → raw ≠ "" → JSON_parse raw = None →
   ∃ w', storageSyncPlugin (Some true) w = Thrown (SyntaxError raw) w' ∧
     store_state w' = store_state w ∧
     patches (trace w') = patches (trace w) ∧
     localStorage w' = localStorage w).
Proof.
  split.
  {
    intros Hvalid. rewrite storageSyncPlugin_enabled. simpl.
    assert (∀ w1, localStorage w1 = localStorage w →
              ∃ w', init_role w1 = Returned tt w' ∧ local w' = local w1 ∧
                snapshot_writes store_id (trace w') = snapshot_writes store_id (trace w1) ∧
                patches (trace w') = patches (trace w1) ∧
                (localStorage w !! sourceKey ≠ Some href →
                   localStorage w' !! acceptorKey = Some "true" ∧
                   localStorage w' !! sourceKey = None)) as Hrole.
    { intros w1 Hls. destruct (init_role_spec w1) as (w' & E & L & F & S & P).
      exists w'. repeat split; try done.
      - rewrite L, Hls, bool_decide_eq_false_2 by done. by keys.
      - rewrite L, Hls, bool_decide_eq_false_2 by done. by keys. }
    destruct (localStorage w !! syncKey) as [raw|] eqn:Hraw.
    - case_bool_decide as He.
      + destruct (Hrole (registered w) eq_refl) as (w' & E & F & S & P & R).
        exists w'. split; [done|]. injection F as ???????.
        split_and!; try done.
        * intros raw' v [= <-] Hp. subst raw. by rewrite JSON_parse_empty in Hp.
        * intros _. split; [done|]. rewrite P. unfold registered. by traces.
        * rewrite S. unfold registered. by traces.
      + destruct (Hvalid raw eq_refl) as [|[v Hp]]; [done|]. rewrite Hp.
        edestruct Hrole as (w' & E & F & S & P & R); [|exists w'; split; [exact E|]].
        { reflexivity. }
        injection F as ???????. simpl in *.
        split_and!; try done.
        * intros raw' v' [= <-] Hp'. split; [congruence|]. rewrite P. unfold registered. traces. congruence.
        * intros [= ->]. done.
        * rewrite S. unfold registered. by traces.
    - destruct (Hrole (registered w) eq_refl) as (w' & E & F & S & P & R).
      exists w'. split; [done|]. injection F as ???????.
      split_and!; try done. rewrite S. unfold registered. by traces.
  }
  {
    intros raw Hraw Hne Hp. rewrite storageSyncPlugin_enabled. simpl.
    rewrite Hraw, bool_decide_eq_false_2, Hp by done.
    eexists. split; [reflexivity|]. unfold registered. split_and!; [done | by traces | done].
  }
Qed.

(** ** The event loop and the debounce timer *)

#[local] Abbreviation step := (step store_id href).
#[local] Abbreviation run := (run store_id href).
#[local] Abbreviation run_timers := (run_timers store_id href).

Lemma onStorage_frame ev w :
  let w' := world_of (onStorage ev w) in
  (debounceTimer w', timers w', next_handle w', now w', subscribed w', listening w') =
    (debounceTimer w, timers w, next_handle w, now w, subscribed w, listening w) ∧
  localStorage w' = localStorage w ∧
  snapshot_writes store_id (trace w') = snapshot_writes store_id (trace w).
Proof.
  unfold_m. unfold parse.
  destruct (bool_decide (key ev = Some syncKey) && truthy (newValue ev)); simpl; [|done].
  case_bool_decide; simpl; [by traces|].
  destruct (JSON_parse _); simpl; [|by traces].
  case_bool_decide; simpl; by traces.
Qed.

Lemma onSubscribe_spec w :
  debounce_inv w →
  ∃ h w', onSubscribe w = Returned tt w' ∧
    timers w' = [(h, now w + 300)] ∧ debounceTimer w' = Some h ∧
    (localStorage w', store_state w', now w', subscribed w', listening w') =
      (localStorage w, store_state w, now w, subscribed w, listening w) ∧
    snapshot_writes store_id (trace w') = snapshot_writes store_id (trace w).
Proof.
  unfold debounce_inv. intros Hinv. exists (next_handle w). unfold_m.
  destruct (debounceTimer w) as [h|] eqn:Hd; simpl.
  - eexists; split; [reflexivity|]; simpl. split_and!; try done; [|by traces].
    destruct (timers w) as [|[h' d] [|]]; [done| |done].
    simpl in Hinv. injection Hinv as ->.
    rewrite filter_cons_False by (simpl; tauto). done.
  - eexists; split; [reflexivity|]; simpl. split_and!; try done; [|by traces].
    destruct (timers w) as [|[h' d] [|]]; done.
Qed.

Lemma flush_all_spec (due : list (positive * nat)) w :
  let w' := foldl (λ w _, world_of (onDebounce (store_state w) w)) w due in
  local w' = local w ∧
  snapshot_writes store_id (trace w') =
    snapshot_writes store_id (trace w) ++ replicate (length due) (JSON_stringify (store_state w)).
Proof.
  revert w. induction due as [|t due IH]; intros w; simpl.
  { by rewrite app_nil_r. }
  destruct (onDebounce_spec (store_state w) w) as (w1 & -> & L & F & S & P). simpl.
  destruct (IH w1) as [F' S']. rewrite F', S', S, F.
  split; [done|]. rewrite <- app_assoc. simpl. by injection F as ->.
Qed.

Lemma run_timers_spec w :
  let due := filter (λ t : positive * nat, t.2 ≤ now w) (timers w) in
  let w' := run_timers w in
  timers w' = filter (λ t : positive * nat, ¬ t.2 ≤ now w) (timers w) ∧
  (store_state w', debounceTimer w', next_handle w', now w', subscribed w', listening w') =
    (store_state w, debounceTimer w, next_handle w, now w, subscribed w, listening w) ∧
  snapshot_writes store_id (trace w') =
    snapshot_writes store_id (trace w) ++ replicate (length due) (JSON_stringify (store_state w)).
Proof.
  simpl. unfold run_timers.
  match goal with |- context [foldl ?f ?w0 ?l] => destruct (flush_all_spec l w0) as [F S] end.
  simpl in F, S. injection F as -> -> -> -> -> -> ->. rewrite S. done.
Qed.

Lemma step_inv e w : debounce_inv w → debounce_inv (step e w).
Proof.
  intros Hinv. destruct e as [s|ev|ms]; simpl.
  - destruct (subscribed w); [|done].
    destruct (onSubscribe_spec (with_state s w)) as (h & w' & -> & T & D & _); [done|].
    unfold debounce_inv. simpl. by rewrite T, D.
  - destruct (listening w); [|done].
    destruct (onStorage_frame ev w) as [F _]. simpl in F.
    unfold debounce_inv. injection F as -> -> _ _ _ _. done.
  - destruct (run_timers_spec (with_now (now w + ms) w)) as (T & F & _). simpl in *.
    unfold debounce_inv in *. rewrite T. injection F as _ -> _ _ _ _.
    destruct (timers w) as [|t [|]]; [done| |done].
    rewrite filter_cons. by case_decide.
Qed.

Lemma step_subscribed e w : subscribed w = true → subscribed (step e w) = true.
Proof.
  intros Hsub. destruct e as [s|ev|ms]; simpl.
  - rewrite Hsub.
    unfold_m. by destruct (debounceTimer w).
  - destruct (listening w); [|done].
    destruct (onStorage_frame ev w) as [F _]. simpl in F. by injection F as _ _ _ _ -> _.
  - destruct (run_timers_spec (with_now (now w + ms) w)) as (_ & F & _). simpl in *.
    by injection F as _ _ _ _ -> _.
Qed.

Lemma run_inv evs w :
  debounce_inv w → subscribed w = true →
  debounce_inv (run evs w) ∧ subscribed (run evs w) = true.
Proof.
  revert w. induction evs as [|e evs IH]; intros w Hinv Hsub; simpl; [done|].
  apply IH; [by apply step_inv | by apply step_subscribed].
Qed.

Lemma debounce_inv_length w : debounce_inv w → length (timers w) ≤ 1.
Proof. unfold debounce_inv. destruct (timers w) as [|t [|]]; simpl; [lia | lia | done]. Qed.

Lemma mutation_arms s w :
  debounce_inv w → subscribed w = true →
  armed (step (Mutation s) w) s ∧
  snapshot_writes store_id (trace (step (Mutation s) w)) = snapshot_writes store_id (trace w).
Proof.
  intros Hinv Hsub. simpl. rewrite Hsub.
  destruct (onSubscribe_spec (with_state s w)) as (h & w' & -> & T & D & F & S); [done|].
  simpl in *. injection F as _ Hs Hn Hsub' _.
  split; [|done]. split_and!; [congruence | done |].
  exists h. by rewrite Hn.
Qed.

Lemma elapse_short g s w :
  armed w s → g < 300 →
  debounce_inv (step (Elapse g) w) ∧ subscribed (step (Elapse g) w) = true ∧
  store_state (step (Elapse g) w) = s ∧
  snapshot_writes store_id (trace (step (Elapse g) w)) = snapshot_writes store_id (trace w).
Proof.
  intros (Hsub & Hs & h & T & D) Hg. simpl.
  destruct (run_timers_spec (with_now (now w + g) w)) as (T' & F & S). simpl in *.
  rewrite T in T', S.
  rewrite filter_cons_True in T' by (simpl; lia).
  rewrite filter_cons_False in S by (simpl; lia). simpl in *.
  injection F as Hs' D' _ _ Hsub' _.
  split_and!.
  - unfold debounce_inv. by rewrite T', D'.
  - congruence.
  - congruence.
  - by rewrite S, app_nil_r.
Qed.

Lemma elapse_long D s w :
  armed w s → 300 ≤ D →
  snapshot_writes store_id (trace (step (Elapse D) w)) =
    snapshot_writes store_id (trace w) ++ [JSON_stringify s] ∧
  timers (step (Elapse D) w) = [].
Proof.
  intros (Hsub & Hs & h & T & Hd) HD. simpl.
  destruct (run_timers_spec (with_now (now w + D) w)) as (T' & F & S). simpl in *.
  rewrite T in T', S.
  rewrite filter_cons_False in T' by (simpl; lia).
  rewrite filter_cons_True in S by (simpl; lia). simpl in *.
  by rewrite S, Hs.
Qed.

Lemma last_state_cons s1 g s rest : last_state s1 ((g, s) :: rest) = last_state s rest.
Proof.
  unfold last_state. rewrite fmap_cons, last_cons. simpl.
  by destruct (last rest.*2).
Qed.

Lemma burst_tail_writes D rest : ∀ s w,
  armed w s → Forall (λ gs : nat * value, gs.1 < 300) rest → 300 ≤ D →
  snapshot_writes store_id
      (trace (run (flat_map (λ gs, [Elapse gs.1; Mutation gs.2]) rest ++ [Elapse D]) w)) =
    snapshot_writes store_id (trace w) ++ [JSON_stringify (last_state s rest)].
Proof.
  induction rest as [|[g s'] rest IH]; intros s w Harmed Hgaps HD.
  - simpl. by apply elapse_long.
  - apply Forall_cons in Hgaps as [Hg Hgaps]. simpl in Hg.
    rewrite last_state_cons. simpl.
    destruct (elapse_short g s w Harmed Hg) as (Hinv & Hsub & _ & S1).
    destruct (mutation_arms s' _ Hinv Hsub) as (Harmed' & S2).
    simpl in *. rewrite (IH s' _ Harmed' Hgaps HD), S2, S1. done.
Qed.

Lemma storageSyncPlugin_world w :
  timers (world_of (storageSyncPlugin (Some true) w)) = timers w ∧
  subscribed (world_of (storageSyncPlugin (Some true) w)) = true.
Proof.
  rewrite storageSyncPlugin_enabled. simpl.
  assert (∀ w1, timers w1 = timers w → subscribed w1 = true →
            timers (world_of (init_role w1)) = timers w ∧
            subscribed (world_of (init_role w1)) = true) as Hrole.
  { intros w1 ??. destruct (init_role_spec w1) as (w' & -> & _ & F & _). simpl.
    injection F as _ _ -> _ _ -> _. done. }
  destruct (localStorage w !! syncKey) as [raw|]; [|by apply Hrole].
  case_bool_decide; [by apply Hrole|].
  destruct (JSON_parse raw); [by apply Hrole | done].
Qed.

(** C6: in a window with the plugin attached, a burst of local mutations
    [s1], ..., [sN], each less than 300 ms after the one before, followed
    by 300 ms or more of quiet, writes the snapshot exactly once, and
    what it writes is the serialization of [sN]; throughout, at most one
    timeout is pending. *)
Theorem C6_debounce_collapses w0 evs0 s1 rest D :
  timers w0 = [] → Forall (λ gs : nat * value, gs.1 < 300) rest → 300 ≤ D →
  let w := run evs0 (world_of (storageSyncPlugin (Some true) w0)) in
  let evs := burst s1 rest ++ [Elapse D] in
  snapshot_writes store_id (trace (run evs w)) =
    snapshot_writes store_id (trace w) ++ [JSON_stringify (last_state s1 rest)] ∧
  ∀ k, length (timers (run (take k evs) w)) ≤ 1.
Proof.
  intros Hfresh Hgaps HD w evs.
  destruct (storageSyncPlugin_world w0) as [T0 Hsub0].
  assert (debounce_inv w ∧ subscribed w = true) as [Hinv Hsub].
  { apply run_inv; [|done]. unfold debounce_inv. by rewrite T0, Hfresh. }
  split.
  - subst evs. unfold burst. simpl.
    destruct (mutation_arms s1 w Hinv Hsub) as (Harmed & S). simpl in *.
    by rewrite (burst_tail_writes D rest s1 _ Harmed Hgaps HD), S.
  - intros k. apply debounce_inv_length. by apply run_inv.
Qed.

(** C9: with [synchronization] absent or [false] the plugin returns at
    once and the window is exactly as it was: nothing read, written or
    removed in the channel, no callback registered; and in a window
    without these callbacks no later event touches the channel. *)
Theorem C9_disabled_plugin_is_inert sync w :
  sync = None ∨ sync = Some false →
  storageSyncPlugin sync w = Returned tt w ∧
  (subscribed w = false → listening w = false → timers w = [] →
   ∀ evs, localStorage (run evs w) = localStorage w ∧ trace (run evs w) = trace w).
Proof.
  intros Hsync. split; [by apply storageSyncPlugin_disabled|].
  intros Hsub Hlis Htim evs. revert w Hsub Hlis Htim.
  induction evs as [|e evs IH]; intros w Hsub Hlis Htim; [done|]. simpl.
  destruct e as [s|ev|ms]; simpl.
  - rewrite Hsub. by destruct (IH (with_state s w)) as [-> ->].
  - rewrite Hlis. by apply IH.
  - unfold run_timers. simpl. rewrite Htim. simpl.
    match goal with |- context [run evs ?w1] => by destruct (IH w1) as [-> ->] end.
Qed.

(** * Further properties of the code *)

(** ** The keys *)

(** X1: For every store id the snapshot key, the SourceMarker key and the
    AcceptorFlag key are three different keys. *)
Theorem keys_pairwise_distinct :
  syncKey ≠ sourceKey ∧ syncKey ≠ acceptorKey ∧ sourceKey ≠ acceptorKey.
Proof. split_and!; auto with keys. Qed.

(** ** What a flush does to the channel *)

Lemma after_flush_source text (ls : gmap string string) :
  after_flush text ls !! sourceKey =
    if negb (truthy (ls !! sourceKey)) || bool_decide (ls !! sourceKey = Some href)
    then Some href else None.
Proof.
  unfold after_flush.
  destruct (truthy (ls !! sourceKey)) eqn:Ht; simpl.
  - keys. case_bool_decide as Hs; by keys.
  - rewrite bool_decide_eq_true_2 by (by keys). by keys.
Qed.

Lemma after_flush_sync text (ls : gmap string string) :
  after_flush text ls !! syncKey = Some text.
Proof.
  unfold after_flush.
  destruct (truthy (ls !! sourceKey)); case_bool_decide; by keys.
Qed.

Lemma after_flush_other text (ls : gmap string string) k :
  k ≠ syncKey → k ≠ sourceKey → k ≠ acceptorKey →
  after_flush text ls !! k = ls !! k.
Proof.
  intros ???. unfold after_flush.
  destruct (truthy (ls !! sourceKey)); case_bool_decide;
    rewrite ?lookup_delete_ne, ?lookup_insert_ne by done; done.
Qed.

(** X2: A flush changes no entry of the channel other than the three keys
    of its store, and leaves the store's state, the timers and the
    applied patches as they were. *)
Theorem flush_touches_only_its_keys state w :
  let w' := world_of (onDebounce state w) in
  (∀ k, k ≠ syncKey → k ≠ sourceKey → k ≠ acceptorKey →
        localStorage w' !! k = localStorage w !! k) ∧
  store_state w' = store_state w ∧
  timers w' = timers w ∧
  debounceTimer w' = debounceTimer w ∧
  patches (trace w') = patches (trace w).
Proof.
  destruct (onDebounce_spec state w) as (w' & -> & L & F & _ & P). simpl.
  injection F as ???????. split_and!; try done.
  intros k ???. rewrite L. by apply after_flush_other.
Qed.

(** X3: A flush in a window that finds the SourceMarker of another window (a
    non-empty value other than its own identity) does not claim the
    marker; it writes the snapshot, then removes that marker and sets
    the AcceptorFlag to ['true']. *)
Theorem flush_removes_foreign_marker state w m :
  localStorage w !! sourceKey = Some m → m ≠ "" → m ≠ href →
  ∃ w', onDebounce state w = Returned tt w' ∧
    localStorage w' !! sourceKey = None ∧
    localStorage w' !! acceptorKey = Some "true" ∧
    localStorage w' !! syncKey = Some (JSON_stringify state).
Proof.
  intros Hm Hne Hother.
  destruct (onDebounce_spec state w) as (w' & E & L & _).
  exists w'. split; [done|]. rewrite L. unfold after_flush.
  rewrite Hm, truthy_Some, (bool_decide_eq_false_2 (m = "")) by done. simpl.
  rewrite bool_decide_eq_false_2; [split_and!; by keys|].
  keys. rewrite Hm. congruence.
Qed.


(** ** The source role, once held *)

Lemma flush_holder_stays state w :
  localStorage w !! sourceKey = Some href →
  localStorage (world_of (onDebounce state w)) !! sourceKey = Some href ∧
  patches (trace (world_of (onDebounce state w))) = patches (trace w).
Proof.
  intros Hs. destruct (onDebounce_spec state w) as (w' & -> & L & _ & _ & P). simpl.
  split; [|done]. rewrite L, after_flush_source, Hs.
  by rewrite (bool_decide_eq_true_2 (Some href = Some href)), orb_true_r.
Qed.

Lemma flush_all_holder (due : list (positive * nat)) w :
  localStorage w !! sourceKey = Some href →
  let w' := foldl (λ w _, world_of (onDebounce (store_state w) w)) w due in
  localStorage w' !! sourceKey = Some href ∧ patches (trace w') = patches (trace w).
Proof.
  revert w. induction due as [|t due IH]; intros w Hs; simpl; [done|].
  destruct (flush_holder_stays (store_state w) w Hs) as [Hs1 P1].
  destruct (IH _ Hs1) as [Hs2 P2]. simpl in *. by rewrite P2, P1.
Qed.

Lemma step_holder e w :
  localStorage w !! sourceKey = Some href →
  localStorage (step e w) !! sourceKey = Some href ∧
  patches (trace (step e w)) = patches (trace w).
Proof.
  intros Hs. destruct e as [s|ev|ms]; simpl.
  - destruct (subscribed w); [|done].
    unfold_m. destruct (debounceTimer w); simpl; split; try done; by traces.
  - destruct (listening w); [|done].
    destruct (onStorage_source ev w Hs) as (w' & -> & _ & P & L). simpl.
    by rewrite L.
  - unfold run_timers.
    match goal with |- context [foldl ?f ?w0 ?l] =>
      destruct (flush_all_holder l w0 Hs) as [Hs' P'] end.
    simpl in *. done.
Qed.

Lemma notifying_listener_holder ev w :
  localStorage w !! sourceKey = Some href →
  localStorage (world_of (Notifying.onStorage store_id href ev w)) !! sourceKey =
    Some href ∧
  patches (trace (world_of (Notifying.onStorage store_id href ev w))) = patches (trace w).
Proof.
  intros Hs. unfold Notifying.onStorage. unfold_m.
  destruct (bool_decide (key ev = Some syncKey) && truthy (newValue ev)); simpl; [|done].
  rewrite bool_decide_eq_true_2 by done. simpl. split; [done | by traces].
Qed.

Lemma notifying_step_holder e w :
  localStorage w !! sourceKey = Some href →
  localStorage (Notifying.step store_id href e w) !! sourceKey = Some href ∧
  patches (trace (Notifying.step store_id href e w)) = patches (trace w).
Proof.
  intros Hs. destruct e as [s|ev|ms].
  - exact (step_holder (Mutation s) w Hs).
  - simpl. destruct (listening w); [|done]. by apply notifying_listener_holder.
  - exact (step_holder (Elapse ms) w Hs).
Qed.

(** ** Writes and mutations *)

Lemma filter_split_length {A} (P : A → Prop) `{∀ x, Decision (P x)} (l : list A) :
  length (filter P l) + length (filter (λ x, ¬ P x) l) = length l.
Proof.
  induction l as [|x l IH]; [done|].
  rewrite !filter_cons. destruct (decide (P x)).
  - rewrite decide_False by tauto. simpl. lia.
  - rewrite decide_True by done. simpl. lia.
Qed.

Lemma onSubscribe_frame w :
  let w' := world_of (onSubscribe w) in
  localStorage w' = localStorage w ∧
  (store_state w', subscribed w', listening w') =
    (store_state w, subscribed w, listening w) ∧
  snapshot_writes store_id (trace w') = snapshot_writes store_id (trace w) ∧
  patches (trace w') = patches (trace w) ∧
  length (timers w') ≤ length (timers w) + 1.
Proof.
  unfold_m. destruct (debounceTimer w) as [h|]; simpl.
  - split_and!; try done; try by traces.
    rewrite length_app. simpl.
    pose proof (length_filter (λ t : positive * nat, t.1 ≠ h) (timers w)). lia.
  - split_and!; try done; try by traces.
    rewrite length_app. simpl. lia.
Qed.

Lemma step_writes_bound e w :
  length (snapshot_writes store_id (trace (step e w))) + length (timers (step e w)) ≤
  length (snapshot_writes store_id (trace w)) + length (timers w) +
    count_mutations [e].
Proof.
  destruct e as [s|ev|ms]; simpl.
  - destruct (subscribed w); simpl; [|lia].
    destruct (onSubscribe_frame (with_state s w)) as (_ & _ & S & _ & T).
    simpl in *. rewrite S. lia.
  - destruct (listening w); [|lia].
    destruct (onStorage_frame ev w) as (F & _ & S). simpl in *.
    rewrite S. injection F as _ -> _ _ _ _. lia.
  - destruct (run_timers_spec (with_now (now w + ms) w)) as (T & _ & S). simpl in *.
    rewrite T, S, length_app, length_replicate.
    pose proof (filter_split_length (λ t : positive * nat, t.2 ≤ now w + ms) (timers w)).
    lia.
Qed.

Lemma count_mutations_cons e evs :
  count_mutations (e :: evs) = count_mutations [e] + count_mutations evs.
Proof. by destruct e. Qed.

Lemma flush_all_patches (due : list (positive * nat)) w :
  patches (trace (foldl (λ w _, world_of (onDebounce (store_state w) w)) w due)) =
    patches (trace w).
Proof.
  revert w. induction due as [|t due IH]; intros w; simpl; [done|].
  destruct (onDebounce_spec (store_state w) w) as (w1 & -> & _ & _ & _ & P). simpl.
  by rewrite IH.
Qed.

Lemma step_patches e w :
  (∀ ev, e ≠ StorageChange ev) → patches (trace (step e w)) = patches (trace w).
Proof.
  intros He. destruct e as [s|ev|ms]; simpl.
  - destruct (subscribed w); [|done].
    by destruct (onSubscribe_frame (with_state s w)) as (_ & _ & _ & P & _).
  - by destruct (He ev).
  - unfold run_timers. by rewrite flush_all_patches.
Qed.

Lemma dollar_patch_notify_bound v w :
  let w' := world_of (Notifying.dollar_patch_notify v w) in
  snapshot_writes store_id (trace w') = snapshot_writes store_id (trace w) ∧
  patches (trace w') = patches (trace w) ++ [v] ∧
  length (timers w') ≤ length (timers w) + 1.
Proof.
  unfold Notifying.dollar_patch_notify, dollar_patch, log, modify, gets.
  unfold mbind, M_bind. simpl.
  destruct (subscribed w); simpl.
  - match goal with |- context [onSubscribe ?w1] =>
      destruct (onSubscribe_frame w1) as (_ & _ & S & P & T) end.
    simpl in *. rewrite S, P. split_and!; [by traces | by traces | done].
  - split_and!; [by traces | by traces | lia].
Qed.

Lemma dollar_patch_notify_frame v w :
  let w' := world_of (Notifying.dollar_patch_notify v w) in
  localStorage w' = localStorage w ∧
  (store_state w', subscribed w', listening w') =
    (patch_state (store_state w) v, subscribed w, listening w) ∧
  snapshot_writes store_id (trace w') = snapshot_writes store_id (trace w) ∧
  patches (trace w') = patches (trace w) ++ [v].
Proof.
  unfold Notifying.dollar_patch_notify, dollar_patch, log, modify, gets.
  unfold mbind, M_bind. simpl.
  destruct (subscribed w) eqn:Hsub; simpl.
  - match goal with |- context [onSubscribe ?w1] =>
      destruct (onSubscribe_frame w1) as (L & F & S & P & _) end.
    simpl in *. rewrite L, F, S, P, Hsub. split_and!; [done | done | by traces | by traces].
  - rewrite Hsub. split_and!; [done | done | by traces | by traces].
Qed.

(** ** What the listener never does *)

(** X5: Whatever the notification and whether it returns or throws, the
    listener on a Pinia store writes nothing to the channel and applies
    at most one patch.  Either it applies none, and the store's state
    and the timeouts are as they were; or it applies one, the state is
    the result of that patch, and the subscriber that [$patch] calls may
    have set a timeout. *)
Theorem listener_only_patches ev w :
  let w' := world_of (Notifying.onStorage store_id href ev w) in
  localStorage w' = localStorage w ∧
  snapshot_writes store_id (trace w') = snapshot_writes store_id (trace w) ∧
  (patches (trace w') = patches (trace w) ∧ store_state w' = store_state w ∧
   timers w' = timers w ∧ debounceTimer w' = debounceTimer w ∨
   ∃ v, patches (trace w') = patches (trace w) ++ [v] ∧
        store_state w' = patch_state (store_state w) v).
Proof.
  unfold Notifying.onStorage.
  destruct (bool_decide (key ev = Some syncKey) && truthy (newValue ev)); simpl.
  2: { split_and!; try done. by left. }
  unfold isSourceWindow, getItem, get_state, parse, log, modify, gets, skip, throw.
  unfold mbind, M_bind, mret, M_ret. simpl.
  case_bool_decide; simpl.
  { split_and!; try done; [by traces|]. left. split_and!; [by traces | done | done | done]. }
  destruct (JSON_parse _) as [v|]; simpl.
  2: { split_and!; try done; [by traces|]. left. split_and!; [by traces | done | done | done]. }
  case_bool_decide; simpl.
  - split_and!; try done; [by traces|]. left. split_and!; [by traces | done | done | done].
  - match goal with |- context [Notifying.dollar_patch_notify v ?w1] =>
      destruct (dollar_patch_notify_frame v w1) as (L & F & S & P) end.
    simpl in *. injection F as F _ _. rewrite L, S, P, F.
    split_and!; [done | by traces |]. right. exists v. split; [by traces | done].
Qed.

Lemma notifying_listener_bound ev w :
  let w' := world_of (Notifying.onStorage store_id href ev w) in
  snapshot_writes store_id (trace w') = snapshot_writes store_id (trace w) ∧
  length (patches (trace w)) ≤ length (patches (trace w')) ∧
  length (timers w') + length (patches (trace w)) ≤
    length (timers w) + length (patches (trace w')).
Proof.
  unfold Notifying.onStorage.
  destruct (bool_decide (key ev = Some syncKey) && truthy (newValue ev)); simpl;
    [|split_and!; [done | lia | lia]].
  unfold isSourceWindow, getItem, get_state, parse, log, modify, gets, skip, throw.
  unfold mbind, M_bind, mret, M_ret. simpl.
  case_bool_decide; simpl; [split_and!; [by traces | by traces | by traces]|].
  destruct (JSON_parse _) as [v|]; simpl;
    [|split_and!; [by traces | by traces | by traces]].
  case_bool_decide; simpl; [split_and!; [by traces | by traces | by traces]|].
  match goal with |- context [Notifying.dollar_patch_notify v ?w1] =>
    destruct (dollar_patch_notify_bound v w1) as (S & P & T) end.
  simpl in *. rewrite S, P. revert T. traces. rewrite !length_app. simpl.
  intros T. split_and!; [done | lia | lia].
Qed.

Lemma notifying_step_bound e w :
  length (snapshot_writes store_id (trace (Notifying.step store_id href e w))) +
  length (timers (Notifying.step store_id href e w)) + length (patches (trace w)) ≤
  length (snapshot_writes store_id (trace w)) + length (timers w) + count_mutations [e] +
  length (patches (trace (Notifying.step store_id href e w))).
Proof.
  destruct e as [s|ev|ms].
  - pose proof (step_writes_bound (Mutation s) w) as B.
    change (Notifying.step store_id href (Mutation s) w) with (step (Mutation s) w).
    rewrite (step_patches (Mutation s) w) by done. lia.
  - change (count_mutations [StorageChange ev]) with 0.
    change (Notifying.step store_id href (StorageChange ev) w)
      with (if listening w then world_of (Notifying.onStorage store_id href ev w) else w).
    destruct (listening w); [|lia].
    destruct (notifying_listener_bound ev w) as (S & _ & T). simpl in *. rewrite S. lia.
  - pose proof (step_writes_bound (Elapse ms) w) as B.
    change (Notifying.step store_id href (Elapse ms) w) with (step (Elapse ms) w).
    rewrite (step_patches (Elapse ms) w) by done. lia.
Qed.

Lemma run_app evs1 evs2 w : run (evs1 ++ evs2) w = run evs2 (run evs1 w).
Proof. apply foldl_app. Qed.

Lemma mutation_channel s w : localStorage (step (Mutation s) w) = localStorage w.
Proof.
  simpl. destruct (subscribed w); [|done].
  by destruct (onSubscribe_frame (with_state s w)) as (L & _).
Qed.

Lemma elapse_short_channel g s w :
  armed w s → g < 300 → localStorage (step (Elapse g) w) = localStorage w.
Proof.
  intros (_ & _ & h & T & _) Hg. simpl. unfold run_timers. simpl.
  rewrite T.
  rewrite (filter_cons_False (λ t : positive * nat, t.2 ≤ now w + g)) by (simpl; lia).
  done.
Qed.

Lemma burst_tail_quiet rest : ∀ s w,
  armed w s → Forall (λ gs : nat * value, gs.1 < 300) rest →
  let w' := run (flat_map (λ gs, [Elapse gs.1; Mutation gs.2]) rest) w in
  armed w' (last_state s rest) ∧
  localStorage w' = localStorage w ∧
  snapshot_writes store_id (trace w') = snapshot_writes store_id (trace w).
Proof.
  induction rest as [|[g s'] rest IH]; intros s w Harmed Hgaps.
  - done.
  - apply Forall_cons in Hgaps as [Hg Hgaps]. simpl in Hg.
    rewrite last_state_cons. simpl.
    destruct (elapse_short g s w Harmed Hg) as (Hinv & Hsub & _ & S1).
    pose proof (elapse_short_channel g s w Harmed Hg) as L1.
    destruct (mutation_arms s' _ Hinv Hsub) as (Harmed' & S2).
    pose proof (mutation_channel s' (step (Elapse g) w)) as L2.
    destruct (IH s' _ Harmed' Hgaps) as (Ha & L3 & S3).
    simpl in *. split_and!; [done | congruence | congruence].
Qed.

(** X8: While mutations keep arriving less than 300 ms apart, and for less
    than 300 ms after the last one, a window with the plugin attached
    writes nothing: the channel is as it was before the first of them. *)
Theorem nothing_written_during_burst w0 evs0 s1 rest g :
  timers w0 = [] → Forall (λ gs : nat * value, gs.1 < 300) rest → g < 300 →
  let w := run evs0 (world_of (storageSyncPlugin (Some true) w0)) in
  let w' := run (burst s1 rest ++ [Elapse g]) w in
  localStorage w' = localStorage w ∧
  snapshot_writes store_id (trace w') = snapshot_writes store_id (trace w) ∧
  length (timers w') = 1.
Proof.
  intros Hfresh Hgaps Hg w w'.
  destruct (storageSyncPlugin_world w0) as [T0 Hsub0].
  assert (debounce_inv w ∧ subscribed w = true) as [Hinv Hsub].
  { apply run_inv; [|done]. unfold debounce_inv. by rewrite T0, Hfresh. }
  destruct (mutation_arms s1 w Hinv Hsub) as (Harmed & S).
  pose proof (mutation_channel s1 w) as L.
  destruct (burst_tail_quiet rest s1 _ Harmed Hgaps) as (Ha & L' & S').
  assert (w' = step (Elapse g)
                 (run (flat_map (λ gs, [Elapse gs.1; Mutation gs.2]) rest)
                    (step (Mutation s1) w))) as ->.
  { subst w'. unfold burst. by rewrite run_app. }
  set (w2 := run _ (step (Mutation s1) w)) in *.
  destruct (elapse_short g _ w2 Ha Hg) as (_ & _ & _ & S2).
  pose proof (elapse_short_channel g _ w2 Ha Hg) as L2.
  split_and!; [congruence | congruence |].
  destruct Ha as (_ & _ & h & T & _).
  destruct (run_timers_spec (with_now (now w2 + g) w2)) as (T' & _). simpl in *.
  rewrite T', T. rewrite filter_cons_True by (simpl; lia). done.
Qed.

(** ** Construction *)

Lemma init_role_world w1 :
  let w' := world_of (init_role w1) in
  localStorage w' =
    (if bool_decide (localStorage w1 !! sourceKey = Some href) then localStorage w1
     else delete sourceKey (<[acceptorKey:="true"]> (localStorage w1))) ∧
  local w' = local w1 ∧
  snapshot_writes store_id (trace w') = snapshot_writes store_id (trace w1) ∧
  patches (trace w') = patches (trace w1).
Proof. by destruct (init_role_spec w1) as (w' & -> & ?). Qed.

Lemma onSubscribe_arms w :
  let w' := world_of (onSubscribe w) in
  debounceTimer w' = Some (next_handle w) ∧
  (next_handle w, now w + 300) ∈ timers w'.
Proof.
  unfold_m. destruct (debounceTimer w); simpl;
    (split; [done|]); set_solver.
Qed.

Lemma dollar_patch_notify_returns v w :
  Notifying.dollar_patch_notify v w =
    Returned tt (world_of (Notifying.dollar_patch_notify v w)).
Proof.
  unfold Notifying.dollar_patch_notify. unfold_m.
  destruct (subscribed w); simpl; [|done]. by destruct (debounceTimer w).
Qed.

Lemma notifying_storageSyncPlugin_enabled w :
  Notifying.storageSyncPlugin store_id href (Some true) w =
    let w1 := registered w in
    match localStorage w !! syncKey with
    | None => init_role w1
    | Some raw =>
        if bool_decide (raw = "") then init_role w1
        else match JSON_parse raw with
             | None => Thrown (SyntaxError raw) w1
             | Some v => init_role (world_of (Notifying.dollar_patch_notify v w1))
             end
    end.
Proof.
  unfold Notifying.storageSyncPlugin, addStorageListener, dollar_subscribe, getItem.
  fold init_role. unfold log, gets, modify, mbind, M_bind. simpl.
  destruct (localStorage w !! syncKey) as [raw|]; simpl; [|reflexivity].
  case_bool_decide; simpl; [reflexivity|].
  unfold parse. destruct (JSON_parse raw) as [v|]; simpl; [|reflexivity].
  rewrite dollar_patch_notify_returns. reflexivity.
Qed.

(** X9: An enabled plugin on a Pinia store registers the listener and
    the subscription before it reads the snapshot: whether construction
    returns or throws, the window is then listening and subscribed.  It
    changes no entry of the channel other than the SourceMarker and the
    AcceptorFlag, and none at all when it throws.  When the snapshot is
    valid JSON the [$patch] that replays it calls the subscriber just
    registered, so construction ends with a flush pending, due 300 ms
    later. *)
Theorem construction_registers_first w :
  let o := Notifying.storageSyncPlugin store_id href (Some true) w in
  subscribed (world_of o) = true ∧
  listening (world_of o) = true ∧
  (∀ k, k ≠ sourceKey → k ≠ acceptorKey →
        localStorage (world_of o) !! k = localStorage w !! k) ∧
  (returns o = false → localStorage (world_of o) = localStorage w) ∧
  (∀ raw v, localStorage w !! syncKey = Some raw → JSON_parse raw = Some v →
     debounceTimer (world_of o) = Some (next_handle w) ∧
     (next_handle w, now w + 300) ∈ timers (world_of o)).
Proof.
  simpl. rewrite notifying_storageSyncPlugin_enabled. simpl.
  assert (∀ w1, localStorage w1 = localStorage w →
            subscribed w1 = true → listening w1 = true →
            subscribed (world_of (init_role w1)) = true ∧
            listening (world_of (init_role w1)) = true ∧
            (∀ k, k ≠ sourceKey → k ≠ acceptorKey →
                  localStorage (world_of (init_role w1)) !! k = localStorage w !! k) ∧
            (returns (init_role w1) = false →
               localStorage (world_of (init_role w1)) = localStorage w)) as Hrole.
  { intros w1 Hls Hsub Hlis.
    destruct (init_role_world w1) as (L & F & _). simpl in *.
    injection F as _ _ _ _ _ -> ->. split_and!; try done.
    - intros k ??. rewrite L. clear L. rewrite Hls. case_bool_decide; [done|].
      by rewrite lookup_delete_ne, lookup_insert_ne.
    - by rewrite init_role_returns. }
  destruct (localStorage w !! syncKey) as [raw|] eqn:Hraw.
  2: { by destruct (Hrole (registered w)) as (?&?&?&?). }
  case_bool_decide as He.
  { destruct (Hrole (registered w)) as (?&?&?&?); try done.
    split_and!; try done. intros raw' v [= <-] Hp. subst raw.
    by rewrite JSON_parse_empty in Hp. }
  destruct (JSON_parse raw) as [v|] eqn:Hp.
  2: { split_and!; try done. intros raw' v [= <-]. congruence. }
  set (w2 := world_of (Notifying.dollar_patch_notify v (registered w))).
  destruct (dollar_patch_notify_frame v (registered w)) as (L & F & _). fold w2 in L, F.
  simpl in L, F. injection F as _ Hsub Hlis.
  destruct (Hrole w2) as (?&?&?&?); try done.
  split_and!; try done. intros raw' v' [= <-] _.
  destruct (init_role_world w2) as (_ & F2 & _). simpl in F2.
  injection F2 as _ -> -> _ _ _ _.
  subst w2. unfold Notifying.dollar_patch_notify, dollar_patch, log, modify, gets.
  unfold mbind, M_bind. simpl.
  match goal with |- context [onSubscribe ?w1] =>
    exact (onSubscribe_arms w1) end.
Qed.

(** X10: A window whose identity is already the stored SourceMarker (a
    reload, or another tab on the same URL) does not become acceptor at
    construction: the channel is left as it was found. *)
Theorem construction_by_holder w :
  localStorage w !! sourceKey = Some href →
  localStorage (world_of (storageSyncPlugin (Some true) w)) = localStorage w.
Proof.
  intros Hs. rewrite storageSyncPlugin_enabled. simpl.
  assert (∀ w1, localStorage w1 = localStorage w →
            localStorage (world_of (init_role w1)) = localStorage w) as Hrole.
  { intros w1 Hls. destruct (init_role_world w1) as (L & _). simpl in *.
    by rewrite L, Hls, bool_decide_eq_true_2. }
  destruct (localStorage w !! syncKey) as [raw|]; [|by apply Hrole].
  case_bool_decide; [by apply Hrole|].
  destruct (JSON_parse raw); [by apply Hrole | done].
Qed.

(** ** The plugin as listed *)

Lemma listing_enabled w :
  Listing.storageSyncPlugin store_id href (Some true) w =
    let w1 := with_trace ((trace w ++ [Subscribe]) ++ [GetItem syncKey])
                (with_subscribed true w) in
    match localStorage w !! syncKey with
    | None => init_role w1
    | Some raw =>
        if bool_decide (raw = "") then init_role w1
        else match JSON_parse raw with
             | None => Thrown (SyntaxError raw) w1
             | Some v =>
                 init_role (with_state (patch_state (store_state w) v)
                              (with_trace (trace w1 ++ [Patch v]) w1))
             end
    end.
Proof.
  unfold Listing.storageSyncPlugin, dollar_subscribe, getItem.
  fold init_role. unfold log, gets, modify, mbind, M_bind. simpl.
  destruct (localStorage w !! syncKey) as [raw|]; simpl; [|reflexivity].
  case_bool_decide; simpl; [reflexivity|].
  unfold parse. destruct (JSON_parse raw); simpl; reflexivity.
Qed.

(** X11: The listing and the plugin proper agree on everything but the
    listener: their flushes are the same function, and their
    constructions return or throw together and leave the same channel,
    the same state, the same patches and the same timers; the listing
    alone leaves the window not listening. *)
Theorem listing_agrees_without_listener sync w :
  (∀ state, Listing.onDebounce store_id href state = onDebounce state) ∧
  let o := Listing.storageSyncPlugin store_id href sync w in
  let o' := storageSyncPlugin sync w in
  returns o = returns o' ∧
  localStorage (world_of o) = localStorage (world_of o') ∧
  store_state (world_of o) = store_state (world_of o') ∧
  patches (trace (world_of o)) = patches (trace (world_of o')) ∧
  timers (world_of o) = timers (world_of o') ∧
  subscribed (world_of o) = subscribed (world_of o') ∧
  listening (world_of o) = listening w.
Proof.
  split; [done|].
  destruct sync as [[|]|]; [|done|done].
  simpl. rewrite listing_enabled, storageSyncPlugin_enabled. simpl.
  assert (∀ w1 w2, localStorage w1 = localStorage w2 →
            (store_state w1, timers w1, subscribed w1) =
              (store_state w2, timers w2, subscribed w2) →
            patches (trace w1) = patches (trace w2) →
            listening w1 = listening w →
            returns (init_role w1) = returns (init_role w2) ∧
            localStorage (world_of (init_role w1)) = localStorage (world_of (init_role w2)) ∧
            store_state (world_of (init_role w1)) = store_state (world_of (init_role w2)) ∧
            patches (trace (world_of (init_role w1))) =
              patches (trace (world_of (init_role w2))) ∧
            timers (world_of (init_role w1)) = timers (world_of (init_role w2)) ∧
            subscribed (world_of (init_role w1)) = subscribed (world_of (init_role w2)) ∧
            listening (world_of (init_role w1)) = listening w) as Hrole.
  { intros w1 w2 Hls Hloc Hp Hlis.
    destruct (init_role_world w1) as (L1 & F1 & _ & P1).
    destruct (init_role_world w2) as (L2 & F2 & _ & P2). simpl in *.
    rewrite !init_role_returns, L1, L2, P1, P2, Hls, Hp.
    injection F1 as -> _ -> _ _ -> ->. injection F2 as -> _ -> _ _ -> _.
    injection Hloc as ???. by split_and!. }
  destruct (localStorage w !! syncKey) as [raw|].
  - case_bool_decide.
    + apply Hrole; [done | done | by traces | done].
    + destruct (JSON_parse raw) as [v|].
      * apply Hrole; [done | done | by traces | done].
      * simpl. split_and!; try done. by traces.
  - apply Hrole; [done | done | by traces | done].
Qed.

Lemma listing_not_listening sync w :
  listening (world_of (Listing.storageSyncPlugin store_id href sync w)) = listening w.
Proof.
  destruct sync as [[|]|]; [|done|done].
  rewrite listing_enabled. simpl.
  assert (∀ w1, listening w1 = listening w →
            listening (world_of (init_role w1)) = listening w) as Hrole.
  { intros w1 Hlis. destruct (init_role_world w1) as (_ & F & _). simpl in *.
    injection F as _ _ _ _ _ _ ->. done. }
  destruct (localStorage w !! syncKey) as [raw|]; [|by apply Hrole].
  case_bool_decide; [by apply Hrole|].
  destruct (JSON_parse raw); [by apply Hrole | done].
Qed.


Lemma step_without_listener e w :
  listening w = false →
  listening (step e w) = false ∧ patches (trace (step e w)) = patches (trace w).
Proof.
  intros Hl. destruct e as [s|ev|ms]; simpl.
  - destruct (subscribed w); [|done].
    destruct (onSubscribe_frame (with_state s w)) as (_ & F & _ & P & _). simpl in *.
    by injection F as _ _ ->.
  - by rewrite Hl.
  - destruct (run_timers_spec (with_now (now w + ms) w)) as (_ & F & _). simpl in *.
    injection F as _ _ _ _ _ ->. split; [done|].
    unfold run_timers. by rewrite flush_all_patches.
Qed.

(** X12: A window that runs the listing's plugin applies a snapshot at
    construction only: whatever happens afterwards, no patch is applied
    to its store. *)
Theorem listing_never_patches_later sync w evs :
  listening w = false →
  let w' := world_of (Listing.storageSyncPlugin store_id href sync w) in
  patches (trace (run evs w')) = patches (trace w').
Proof.
  intros Hl w'.
  assert (listening w' = false) as Hl'.
  { subst w'. by rewrite listing_not_listening. }
  clearbody w'. clear Hl. revert w' Hl'.
  induction evs as [|e evs IH]; intros w' Hl'; simpl; [done|].
  destruct (step_without_listener e w' Hl') as [Hl1 P1].
  by rewrite IH, P1.
Qed.

End Properties.

(** * The properties on concrete windows *)

Example parse_count : JSON_parse (js "{'count':1}") = Some (count 1).
Proof. reflexivity. Qed.

Example stringify_count : JSON_stringify (count 1) = js "{'count':1}".
Proof. reflexivity. Qed.

Example patch_merges :
  patch_state (JObj [("a", JNum 1); ("b", JNum 2)]) (JObj [("a", JNum 5)]) =
    JObj [("a", JNum 5); ("b", JNum 2)].
Proof. reflexivity. Qed.

(** *** C1 *)

Lemma C1_flush_keeps_source_marker_witness :
  let w := window_a ∅ (count 0) in
  (truthy (localStorage w !! sourceKey "S") = false ∨
   localStorage w !! sourceKey "S" = Some href_a) ∧
  ∃ w', onDebounce "S" href_a (count 1) w = Returned tt w' ∧
    localStorage w' !! sourceKey "S" = Some href_a ∧
    localStorage w' !! acceptorKey "S" =
      (if truthy (localStorage w !! sourceKey "S") then localStorage w !! acceptorKey "S"
       else Some "false").
Proof.
  intros w. split; [left; reflexivity|].
  exact (C1_flush_keeps_source_marker "S" href_a (count 1) w (or_introl eq_refl)).
Defined.

(** The flush of [{count:1}] in a window that finds the channel empty:
    the snapshot is written, the SourceMarker stays, the AcceptorFlag is
    ['false']. *)
Example flush_on_empty_channel :
  let w' := world_of (onDebounce "S" href_a (count 1) (window_a ∅ (count 1))) in
  localStorage w' !! "pinia_S" = Some (js "{'count':1}") ∧
  localStorage w' !! "pinia_S_sourceWindow" = Some href_a ∧
  localStorage w' !! "pinia_S_acceptorWindow" = Some "false".
Proof. vm_compute. split_and!; reflexivity. Qed.

(** *** C2 *)

(** C2, refuted as stated: in a window that is not the source, the
    listener throws on the snapshot text [{]. *)
Lemma C2_counterexample :
  JSON_parse "{" = None ∧
  returns (onStorage "S" href_a (snapshot_event "{") (window_a ∅ (count 1))) = false.
Proof. vm_compute. split; reflexivity. Qed.

Lemma C2_invalid_snapshot_text_witness :
  let ev := snapshot_event "{" in
  let w := window_a ∅ (count 1) in
  newValue ev = Some "{" ∧
  JSON_parse "{" = None ∧
  store_state (world_of (onStorage "S" href_a ev w)) = store_state w ∧
  patches (trace (world_of (onStorage "S" href_a ev w))) = patches (trace w) ∧
  localStorage (world_of (onStorage "S" href_a ev w)) = localStorage w ∧
  (if bool_decide (key ev = Some (syncKey "S") ∧ "{" ≠ "" ∧
                   localStorage w !! sourceKey "S" ≠ Some href_a)
   then ∃ w', onStorage "S" href_a ev w = Thrown (SyntaxError "{") w'
   else ∃ w', onStorage "S" href_a ev w = Returned tt w').
Proof.
  intros ev w. split; [reflexivity|]. split; [reflexivity|].
  exact (C2_invalid_snapshot_text "S" href_a ev "{" w eq_refl eq_refl).
Defined.

(** *** C3 *)

(** C3, refuted as stated: construction throws when the channel holds
    the snapshot text [{]. *)
Lemma C3_counterexample :
  localStorage (window_a {[ "pinia_S" := "{" ]} (count 0)) !! syncKey "S" = Some "{" ∧
  returns (storageSyncPlugin "S" href_a (Some true)
             (window_a {[ "pinia_S" := "{" ]} (count 0))) = false.
Proof. vm_compute. split; reflexivity. Qed.

(** *** C4 *)

Lemma C4_source_window_ignores_witness :
  let ev := snapshot_event (js "{'count':2}") in
  let w := window_a {[ "pinia_S_sourceWindow" := href_a ]} (count 1) in
  localStorage w !! sourceKey "S" = Some href_a ∧
  ∃ w', onStorage "S" href_a ev w = Returned tt w' ∧
    store_state w' = store_state w ∧
    patches (trace w') = patches (trace w) ∧
    localStorage w' = localStorage w.
Proof.
  intros ev w. split; [vm_compute; reflexivity|].
  exact (C4_source_window_ignores "S" href_a ev w ltac:(vm_compute; reflexivity)).
Defined.

(** *** C5 *)

(** C5, refuted as stated: the store holds [{a:1, b:2}] and the snapshot
    [{a:5}] is delivered twice to a window that is not the source.  The
    first delivery patches the state to [{a:5, b:2}], which still does
    not serialize as the snapshot, so the second delivery patches
    again. *)
Lemma C5_counterexample :
  let s := JObj [("a", JNum 1); ("b", JNum 2)] in
  let ev := snapshot_event (js "{'a':5}") in
  localStorage (attached ∅ s) !! sourceKey "S" = None ∧
  store_state (run "S" href_a [StorageChange ev] (attached ∅ s)) =
    JObj [("a", JNum 5); ("b", JNum 2)] ∧
  patches (trace (run "S" href_a [StorageChange ev] (attached ∅ s))) =
    [JObj [("a", JNum 5)]] ∧
  patches (trace (run "S" href_a [StorageChange ev; StorageChange ev] (attached ∅ s))) =
    [JObj [("a", JNum 5)]; JObj [("a", JNum 5)]].
Proof. vm_compute. split_and!; reflexivity. Qed.

Lemma C5_patch_iff_serializations_differ_witness :
  let ev := snapshot_event (js "{'count':1}") in
  let w := attached ∅ (count 0) in
  key ev = Some (syncKey "S") ∧
  newValue ev = Some (js "{'count':1}") ∧
  JSON_parse (js "{'count':1}") = Some (count 1) ∧
  localStorage w !! sourceKey "S" ≠ Some href_a ∧
  ∃ w1, onStorage "S" href_a ev w = Returned tt w1 ∧
    (JSON_stringify (store_state w) ≠ JSON_stringify (count 1) →
       store_state w1 = patch_state (store_state w) (count 1) ∧
       patches (trace w1) = patches (trace w) ++ [count 1]) ∧
    (JSON_stringify (store_state w) = JSON_stringify (count 1) →
       store_state w1 = store_state w ∧ patches (trace w1) = patches (trace w)) ∧
    (JSON_stringify (store_state w1) = JSON_stringify (count 1) →
       ∃ w2, onStorage "S" href_a ev w1 = Returned tt w2 ∧
         store_state w2 = store_state w1 ∧ patches (trace w2) = patches (trace w1)).
Proof.
  intros ev w.
  assert (localStorage w !! sourceKey "S" ≠ Some href_a) as Hsrc.
  { vm_compute. discriminate. }
  split_and!; [reflexivity | reflexivity | reflexivity | exact Hsrc |].
  exact (C5_patch_iff_serializations_differ "S" href_a ev (js "{'count':1}") (count 1) w
           eq_refl eq_refl eq_refl Hsrc).
Defined.

(** The comparison is on the serialized texts, so the order of the keys
    counts: the snapshot [{b:2, a:1}] is applied to a store that holds
    [{a:1, b:2}], and leaves it as it was. *)
Example key_order_is_compared :
  let s := JObj [("a", JNum 1); ("b", JNum 2)] in
  let w' := run "S" href_a [StorageChange (snapshot_event (js "{'b':2,'a':1}"))]
              (attached ∅ s) in
  patches (trace w') = [JObj [("b", JNum 2); ("a", JNum 1)]] ∧ store_state w' = s.
Proof. vm_compute. split; reflexivity. Qed.

(** With the same keys on both sides the second delivery is skipped. *)
Example second_delivery_skipped :
  let ev := snapshot_event (js "{'count':1}") in
  patches (trace (run "S" href_a [StorageChange ev; StorageChange ev] (attached ∅ (count 0)))) =
    [count 1].
Proof. vm_compute. reflexivity. Qed.

(** *** C6 *)

Lemma C6_debounce_collapses_witness :
  let w0 := window_a ∅ (count 0) in
  let rest := [(100, count 2); (299, count 3)] in
  timers w0 = [] ∧
  Forall (λ gs : nat * value, gs.1 < 300) rest ∧
  300 ≤ 300 ∧
  let w := run "S" href_a [] (world_of (storageSyncPlugin "S" href_a (Some true) w0)) in
  let evs := burst (count 1) rest ++ [Elapse 300] in
  snapshot_writes "S" (trace (run "S" href_a evs w)) =
    snapshot_writes "S" (trace w) ++ [JSON_stringify (last_state (count 1) rest)] ∧
  ∀ k, length (timers (run "S" href_a (take k evs) w)) ≤ 1.
Proof.
  intros w0 rest.
  assert (Forall (λ gs : nat * value, gs.1 < 300) rest) as Hgaps.
  { repeat constructor; simpl; lia. }
  split_and!; [reflexivity | exact Hgaps | lia |].
  exact (C6_debounce_collapses "S" href_a w0 [] (count 1) rest 300 eq_refl Hgaps
           (le_n 300)).
Defined.

(** Three mutations 100 ms and 299 ms apart, then 300 ms of quiet: one
    snapshot write, of the last state; a gap of 300 ms instead lets the
    first timeout run, and there are two writes. *)
Example burst_of_three :
  snapshot_writes "S"
    (trace (run "S" href_a
              [Mutation (count 1); Elapse 100; Mutation (count 2); Elapse 299;
               Mutation (count 3); Elapse 300]
              (attached ∅ (count 0)))) =
    [js "{'count':3}"].
Proof. vm_compute. reflexivity. Qed.

Example gap_of_300 :
  snapshot_writes "S"
    (trace (run "S" href_a
              [Mutation (count 1); Elapse 300; Mutation (count 2); Elapse 300]
              (attached ∅ (count 0)))) =
    [js "{'count':1}"; js "{'count':2}"].
Proof. vm_compute. reflexivity. Qed.

(** *** C7 *)

(** C7, refuted as stated: a SourceMarker entry that is the empty string
    exists, and the claim step overwrites it and sets the AcceptorFlag. *)
Lemma C7_counterexample :
  let w := window_a {[ "pinia_S_sourceWindow" := "" ]} (count 1) in
  let w1 := world_of (markAsSource "S" href_a w) in
  localStorage w !! sourceKey "S" = Some "" ∧
  localStorage w !! acceptorKey "S" = None ∧
  localStorage w1 !! sourceKey "S" = Some href_a ∧
  localStorage w1 !! acceptorKey "S" = Some "false".
Proof. vm_compute. split_and!; reflexivity. Qed.

(** A marker set by another window is left alone by the claim step. *)
Example claim_step_respects_marker :
  let w := window_a {[ "pinia_S_sourceWindow" := "http://localhost/b" ]} (count 1) in
  let w1 := world_of (markAsSource "S" href_a w) in
  localStorage w1 !! sourceKey "S" = Some "http://localhost/b" ∧
  localStorage w1 !! acceptorKey "S" = None.
Proof. vm_compute. split; reflexivity. Qed.

(** *** C8 *)

(** C8, refuted as stated: a snapshot entry exists but is cut short;
    construction throws, nothing is applied to the store and the window
    does not become acceptor. *)
Lemma C8_counterexample :
  let w := window_a {[ "pinia_S" := js "{'count':" ]} (count 0) in
  let o := storageSyncPlugin "S" href_a (Some true) w in
  localStorage w !! syncKey "S" = Some (js "{'count':") ∧
  localStorage w !! sourceKey "S" = None ∧
  returns o = false ∧
  store_state (world_of o) = count 0 ∧
  patches (trace (world_of o)) = [] ∧
  localStorage (world_of o) !! acceptorKey "S" = None.
Proof. vm_compute. split_and!; reflexivity. Qed.

Lemma C8_cold_start_replay_witness :
  let w := window_a {[ "pinia_S" := js "{'count':7}" ]} (count 0) in
  let wbad := window_a {[ "pinia_S" := js "{'count':" ]} (count 0) in
  (∀ raw, localStorage w !! syncKey "S" = Some raw → raw = "" ∨ is_Some (JSON_parse raw)) ∧
  (∃ w', storageSyncPlugin "S" href_a (Some true) w = Returned tt w' ∧
     (∀ raw v, localStorage w !! syncKey "S" = Some raw → JSON_parse raw = Some v →
        store_state w' = patch_state (store_state w) v ∧
        patches (trace w') = patches (trace w) ++ [v]) ∧
     (localStorage w !! syncKey "S" = Some "" →
        store_state w' = store_state w ∧ patches (trace w') = patches (trace w)) ∧
     snapshot_writes "S" (trace w') = snapshot_writes "S" (trace w) ∧
     (localStorage w !! sourceKey "S" ≠ Some href_a →
        localStorage w' !! acceptorKey "S" = Some "true" ∧
        localStorage w' !! sourceKey "S" = None)) ∧
  localStorage wbad !! syncKey "S" = Some (js "{'count':") ∧
  js "{'count':" ≠ "" ∧
  JSON_parse (js "{'count':") = None ∧
  (∃ w', storageSyncPlugin "S" href_a (Some true) wbad =
           Thrown (SyntaxError (js "{'count':")) w' ∧
     store_state w' = store_state wbad ∧
     patches (trace w') = patches (trace wbad) ∧
     localStorage w' = localStorage wbad).
Proof.
  intros w wbad.
  assert (∀ raw, localStorage w !! syncKey "S" = Some raw →
            raw = "" ∨ is_Some (JSON_parse raw)) as Hvalid.
  { intros raw E. vm_compute in E. injection E as <-. right. exists (count 7).
    vm_compute. reflexivity. }
  assert (localStorage wbad !! syncKey "S" = Some (js "{'count':")) as Hraw
    by (vm_compute; reflexivity).
  assert (js "{'count':" ≠ "") as Hne by (vm_compute; discriminate).
  assert (JSON_parse (js "{'count':") = None) as Hp by (vm_compute; reflexivity).
  split_and!; [exact Hvalid | | exact Hraw | exact Hne | exact Hp |].
  - exact (proj1 (C8_cold_start_replay "S" href_a w) Hvalid).
  - exact (proj2 (C8_cold_start_replay "S" href_a wbad) (js "{'count':") Hraw Hne Hp).
Defined.

(** A window opened next to the snapshot [{count:7}] starts from it and
    is acceptor. *)
Example cold_start :
  let w' := attached {[ "pinia_S" := js "{'count':7}" ]} (count 0) in
  store_state w' = count 7 ∧
  localStorage w' !! "pinia_S_acceptorWindow" = Some "true" ∧
  localStorage w' !! "pinia_S_sourceWindow" = None.
Proof. vm_compute. split_and!; reflexivity. Qed.

(** *** C9 *)

Lemma C9_disabled_plugin_is_inert_witness :
  let w := window_a {[ "pinia_S" := js "{'count':7}" ]} (count 0) in
  ((None : option bool) = None ∨ (None : option bool) = Some false) ∧
  storageSyncPlugin "S" href_a None w = Returned tt w ∧
  (subscribed w = false → listening w = false → timers w = [] →
   ∀ evs, localStorage (run "S" href_a evs w) = localStorage w ∧
          trace (run "S" href_a evs w) = trace w).
Proof.
  intros w. split; [left; reflexivity|].
  exact (C9_disabled_plugin_is_inert "S" href_a None w (or_introl eq_refl)).
Defined.

(** *** C10 *)

Lemma C10_other_notifications_witness :
  let ev := {| key := Some "pinia_S_sourceWindow"; newValue := Some href_a |} in
  let w := attached ∅ (count 0) in
  (key ev ≠ Some (syncKey "S") ∨ newValue ev = None ∨ newValue ev = Some "") ∧
  onStorage "S" href_a ev w = Returned tt w.
Proof.
  intros ev w.
  assert (key ev ≠ Some (syncKey "S")) as Hk.
  { vm_compute. discriminate. }
  split; [left; exact Hk|].
  exact (C10_other_notifications "S" href_a ev w (or_introl Hk)).
Defined.

(** * Properties across stores and across windows *)

Section Across.
Context `{JSHost}.
Variable store_id : string.

(** X13: The SourceMarker key of store [id] is the snapshot key of a store
    named [id_sourceWindow]: every flush of store [id] leaves that other
    store's snapshot entry holding the window's URL, or removes it. *)
Theorem flush_clobbers_suffixed_store href state w :
  let other := store_id +:+ "_sourceWindow" in
  ∃ w', onDebounce store_id href state w = Returned tt w' ∧
    localStorage w' !! syncKey other =
      if negb (truthy (localStorage w !! syncKey other))
         || bool_decide (localStorage w !! syncKey other = Some href)
      then Some href else None.
Proof.
  simpl. change (syncKey (store_id +:+ "_sourceWindow")) with (sourceKey store_id).
  destruct (onDebounce_spec store_id href state w) as (w' & E & L & _).
  exists w'. split; [done|]. by rewrite L, after_flush_source.
Qed.

Lemma holder_after_flush hrefA hrefB state w :
  hrefA ≠ hrefB →
  localStorage (world_of (onDebounce store_id hrefA state w)) !! sourceKey store_id
    ≠ Some hrefB.
Proof.
  intros Hne. destruct (onDebounce_spec store_id hrefA state w) as (w' & -> & L & _).
  simpl. rewrite L, after_flush_source.
  destruct (_ || _); congruence.
Qed.

Lemma snapshot_after_flush href state w :
  localStorage (world_of (onDebounce store_id href state w)) !! syncKey store_id =
    Some (JSON_stringify state).
Proof.
  destruct (onDebounce_spec store_id href state w) as (w' & -> & L & _).
  simpl. by rewrite L, after_flush_sync.
Qed.

Lemma parsed_text_not_empty text v : JSON_parse text = Some v → text ≠ "".
Proof. intros Hp ->. by rewrite JSON_parse_empty in Hp. Qed.

(** X14: A flush in window A reaches every window B with another URL:
    whatever B's own state, with the channel as A's flush left it B's
    listener takes the notification of A's snapshot, returns, and leaves
    B's store patched with the parsed snapshot, or as it was when it
    already serializes the same. *)
Theorem flush_reaches_other_window hrefA hrefB sA v wA wB0 :
  hrefA ≠ hrefB →
  JSON_parse (JSON_stringify sA) = Some v →
  let wB := with_storage (λ _, localStorage (world_of (onDebounce store_id hrefA sA wA)))
              wB0 in
  ∃ wB', onStorage store_id hrefB
           (snapshot_notification store_id (JSON_stringify sA)) wB = Returned tt wB' ∧
    store_state wB' =
      (if bool_decide (JSON_stringify (store_state wB) = JSON_stringify v)
       then store_state wB else patch_state (store_state wB) v) ∧
    localStorage wB' = localStorage wB.
Proof.
  intros Hne Hp wB.
  assert (localStorage wB = localStorage (world_of (onDebounce store_id hrefA sA wA)))
    as Hls by done.
  clearbody wB.
  rewrite (onStorage_acceptor store_id hrefB _ (JSON_stringify sA) wB); try done.
  - rewrite Hp. simpl. case_bool_decide; eexists; (split; [reflexivity|]); done.
  - by eapply parsed_text_not_empty.
  - rewrite Hls. by apply holder_after_flush.
Qed.

(** X15: Two windows on the same URL have the same identity: once one of
    them has flushed with the SourceMarker free or its own, the other,
    seeing that channel, ignores every notification. *)
Theorem same_url_windows_do_not_sync href sA wA wB0 ev :
  truthy (localStorage wA !! sourceKey store_id) = false ∨
  localStorage wA !! sourceKey store_id = Some href →
  let wB := with_storage (λ _, localStorage (world_of (onDebounce store_id href sA wA)))
              wB0 in
  ∃ wB', onStorage store_id href ev wB = Returned tt wB' ∧
    store_state wB' = store_state wB ∧
    patches (trace wB') = patches (trace wB).
Proof.
  intros Hfree wB.
  assert (localStorage wB = localStorage (world_of (onDebounce store_id href sA wA)))
    as Hls by done.
  clearbody wB.
  assert (localStorage wB !! sourceKey store_id = Some href) as Hs.
  { rewrite Hls.
    destruct (onDebounce_spec store_id href sA wA) as (w' & -> & L & _). simpl.
    rewrite L, after_flush_source.
    destruct Hfree as [-> | ->]; [done|].
    by rewrite (bool_decide_eq_true_2 (Some href = Some href)), orb_true_r. }
  destruct (onStorage_source store_id href ev wB Hs) as (wB' & E & F & P & _).
  exists wB'. split_and!; try done. by injection F.
Qed.

(** X16: A window B opened on another URL after A's flush starts from A's
    snapshot and takes the role of acceptor, removing whatever
    SourceMarker the flush left. *)
Theorem cold_start_after_flush hrefA hrefB sA v wA wB0 :
  hrefA ≠ hrefB →
  JSON_parse (JSON_stringify sA) = Some v →
  let wB := with_storage (λ _, localStorage (world_of (onDebounce store_id hrefA sA wA)))
              wB0 in
  ∃ wB', storageSyncPlugin store_id hrefB (Some true) wB = Returned tt wB' ∧
    store_state wB' = patch_state (store_state wB) v ∧
    localStorage wB' !! sourceKey store_id = None ∧
    localStorage wB' !! acceptorKey store_id = Some "true" ∧
    localStorage wB' !! syncKey store_id = Some (JSON_stringify sA).
Proof.
  intros Hne Hp wB.
  assert (localStorage wB = localStorage (world_of (onDebounce store_id hrefA sA wA)))
    as Hls by done.
  clearbody wB.
  pose proof (snapshot_after_flush hrefA sA wA) as Hsnap. rewrite <- Hls in Hsnap.
  pose proof (holder_after_flush hrefA hrefB sA wA Hne) as Hsrc. rewrite <- Hls in Hsrc.
  rewrite storageSyncPlugin_enabled. simpl. rewrite Hsnap.
  rewrite bool_decide_eq_false_2 by (by eapply parsed_text_not_empty).
  rewrite Hp.
  match goal with |- context [init_role _ _ ?w1] =>
    destruct (init_role_spec store_id hrefB w1) as (wB' & E & L & F & _) end.
  exists wB'. split; [done|]. simpl in *. injection F as -> _ _ _ _ _ _.
  rewrite L, bool_decide_eq_false_2 by done.
  split_and!; [done | | | ].
  - by rewrite lookup_delete_eq.
  - rewrite lookup_delete_ne by apply source_acceptor_ne. by rewrite lookup_insert_eq.
  - rewrite lookup_delete_ne by apply source_sync_ne.
    rewrite lookup_insert_ne by apply acceptor_sync_ne. done.
Qed.

(** X4: Two flushes in a row in one window, the channel accepting their
    writes and nothing else writing in between, with the window at [h1]
    for the first and at [h2] for the second: if the URL has not changed
    the window ends up holding the SourceMarker, whatever the channel
    held; if it has, the marker ends up removed when the first flush
    left it at the old, non-empty URL, and is the new URL otherwise. *)
Theorem marker_after_two_flushes h1 h2 s1 s2 w :
  let w1 := world_of (onDebounce store_id h1 s1 w) in
  let w2 := world_of (onDebounce store_id h2 s2 w1) in
  let m0 := localStorage w !! sourceKey store_id in
  (h1 = h2 → localStorage w2 !! sourceKey store_id = Some h2) ∧
  localStorage w2 !! sourceKey store_id =
    if (negb (truthy m0) || bool_decide (m0 = Some h1))
       && negb (bool_decide (h1 = "")) && negb (bool_decide (h1 = h2))
    then None else Some h2.
Proof.
  simpl.
  destruct (onDebounce_spec store_id h1 s1 w) as (w1 & -> & L1 & _). simpl.
  destruct (onDebounce_spec store_id h2 s2 w1) as (w2 & -> & L2 & _). simpl.
  rewrite L2, after_flush_source, L1, after_flush_source.
  destruct (negb (truthy (localStorage w !! sourceKey store_id))
            || bool_decide (localStorage w !! sourceKey store_id = Some h1)); simpl.
  - destruct (decide (h1 = "")) as [->|Hne1].
    + rewrite (bool_decide_eq_true_2 ("" = "")) by done. simpl. by split.
    + rewrite (bool_decide_eq_false_2 (h1 = "")) by done. simpl.
      destruct (decide (h1 = h2)) as [->|Hne].
      * rewrite (bool_decide_eq_true_2 (Some h2 = Some h2)) by done.
        rewrite (bool_decide_eq_true_2 (h2 = h2)) by done. by split.
      * rewrite (bool_decide_eq_false_2 (Some h1 = Some h2)) by congruence.
        rewrite (bool_decide_eq_false_2 (h1 = h2)) by done. simpl. by split.
  - by split.
Qed.

(** X6: While its URL stays the same and no other window writes to the
    channel, a window that holds the SourceMarker keeps it through every
    mutation, notification and flush of its own, and applies no remote
    snapshot. *)
Theorem source_role_is_kept href hevs w :
  Forall (λ he : string * event, he.1 = href) hevs →
  localStorage w !! sourceKey store_id = Some href →
  localStorage (Notifying.run store_id hevs w) !! sourceKey store_id = Some href ∧
  patches (trace (Notifying.run store_id hevs w)) = patches (trace w).
Proof.
  intros Hurl. revert w.
  induction Hurl as [|[h e] hevs Hh _ IH]; intros w Hs; [done|].
  simpl in Hh. subst h. simpl.
  destruct (notifying_step_holder store_id href e w Hs) as [Hs1 P1].
  destruct (IH _ Hs1) as [Hs2 P2]. by rewrite P2, P1.
Qed.

(** X7: Over any run of a window on a Pinia store, its URL free to change,
    the snapshot writes made plus the timeouts left pending are at most
    the writes and pending timeouts at the start plus the local
    mutations plus the remote patches applied during the run: every
    snapshot write answers a call of the subscriber, made for a local
    mutation or by [$patch] after the listener applied a snapshot. *)
Theorem writes_bounded_by_subscriber_calls hevs w :
  length (snapshot_writes store_id (trace (Notifying.run store_id hevs w))) +
  length (timers (Notifying.run store_id hevs w)) + length (patches (trace w)) ≤
  length (snapshot_writes store_id (trace w)) + length (timers w) +
  count_mutations hevs.*2 + length (patches (trace (Notifying.run store_id hevs w))).
Proof.
  revert w. induction hevs as [|[h e] hevs IH]; intros w; [simpl; lia|].
  rewrite fmap_cons, count_mutations_cons. simpl.
  pose proof (IH (Notifying.step store_id h e w)).
  pose proof (notifying_step_bound store_id h e w). simpl in *. lia.
Qed.

End Across.

(** * The further properties on concrete windows *)

Lemma flush_removes_foreign_marker_witness :
  let w := window_a {[ "pinia_S_sourceWindow" := href_b ]} (count 1) in
  localStorage w !! sourceKey "S" = Some href_b ∧
  href_b ≠ "" ∧
  href_b ≠ href_a ∧
  ∃ w', onDebounce "S" href_a (count 1) w = Returned tt w' ∧
    localStorage w' !! sourceKey "S" = None ∧
    localStorage w' !! acceptorKey "S" = Some "true" ∧
    localStorage w' !! syncKey "S" = Some (JSON_stringify (count 1)).
Proof.
  intros w.
  assert (localStorage w !! sourceKey "S" = Some href_b) as Hm by (vm_compute; reflexivity).
  assert (href_b ≠ "") as Hne by (vm_compute; discriminate).
  assert (href_b ≠ href_a) as Hother by (vm_compute; discriminate).
  split_and!; [exact Hm | exact Hne | exact Hother |].
  exact (flush_removes_foreign_marker "S" href_a (count 1) w href_b Hm Hne Hother).
Defined.

Lemma source_role_is_kept_witness :
  let w := attached {[ "pinia_S_sourceWindow" := href_a ]} (count 0) in
  let hevs := [(href_a, Mutation (count 1)); (href_a, Elapse 300);
               (href_a, StorageChange (snapshot_event (js "{'count':9}")));
               (href_a, Elapse 300)] in
  Forall (λ he : string * event, he.1 = href_a) hevs ∧
  localStorage w !! sourceKey "S" = Some href_a ∧
  localStorage (Notifying.run "S" hevs w) !! sourceKey "S" = Some href_a ∧
  patches (trace (Notifying.run "S" hevs w)) = patches (trace w).
Proof.
  intros w hevs.
  assert (Forall (λ he : string * event, he.1 = href_a) hevs) as Hurl
    by (repeat constructor).
  assert (localStorage w !! sourceKey "S" = Some href_a) as Hs by (vm_compute; reflexivity).
  split; [exact Hurl|]. split; [exact Hs|].
  exact (source_role_is_kept "S" href_a hevs w Hurl Hs).
Defined.

(** The same window after it has moved to another URL without
    reloading: its next flush removes the marker, and it then applies a
    remote snapshot. *)
Example url_change_releases_source :
  let w := attached {[ "pinia_S_sourceWindow" := href_a ]} (count 0) in
  let w' := Notifying.run "S"
              [(href_a, Mutation (count 1)); (href_b, Elapse 300);
               (href_b, StorageChange (snapshot_event (js "{'count':9}")))] w in
  localStorage w' !! sourceKey "S" = None ∧
  localStorage w' !! acceptorKey "S" = Some "true" ∧
  patches (trace w') = [count 9].
Proof. vm_compute. split_and!; reflexivity. Qed.

(** On a Pinia store a notification that patches is followed, 300 ms
    later, by a snapshot write of the window's own. *)
Example patch_is_echoed :
  let w := attached ∅ (count 0) in
  snapshot_writes "S"
    (trace (Notifying.run "S"
              [(href_a, StorageChange (snapshot_event (js "{'count':1}")));
               (href_a, Elapse 300)] w)) =
    [js "{'count':1}"].
Proof. vm_compute. reflexivity. Qed.

(** A window opened on a channel that holds a snapshot replays it and,
    300 ms later, writes it back. *)
Example construction_arms_flush :
  let w := world_of (Notifying.storageSyncPlugin "S" href_a (Some true)
                       (fresh_window {[ "pinia_S" := js "{'count':7}" ]} (count 0))) in
  store_state w = count 7 ∧
  length (timers w) = 1 ∧
  snapshot_writes "S" (trace (Notifying.run "S" [(href_a, Elapse 300)] w)) =
    [js "{'count':7}"].
Proof. vm_compute. split_and!; reflexivity. Qed.

(** Two flushes in one window: at the same URL the window holds the
    marker; after a move from [href_a] to [href_b] the second flush
    removes it. *)
Example two_flushes_same_url :
  let w1 := world_of (onDebounce "S" href_a (count 1)
                        (window_a {[ "pinia_S_sourceWindow" := href_b ]} (count 1))) in
  let w2 := world_of (onDebounce "S" href_a (count 2) w1) in
  localStorage w1 !! sourceKey "S" = None ∧
  localStorage w2 !! sourceKey "S" = Some href_a.
Proof. vm_compute. split; reflexivity. Qed.

Example two_flushes_url_changed :
  let w1 := world_of (onDebounce "S" href_a (count 1) (window_a ∅ (count 1))) in
  let w2 := world_of (onDebounce "S" href_b (count 2) w1) in
  localStorage w1 !! sourceKey "S" = Some href_a ∧
  localStorage w2 !! sourceKey "S" = None ∧
  localStorage w2 !! acceptorKey "S" = Some "true".
Proof. vm_compute. split_and!; reflexivity. Qed.

Lemma nothing_written_during_burst_witness :
  let w0 := window_a ∅ (count 0) in
  let rest := [(100, count 2); (299, count 3)] in
  timers w0 = [] ∧
  Forall (λ gs : nat * value, gs.1 < 300) rest ∧
  299 < 300 ∧
  let w := run "S" href_a [] (world_of (storageSyncPlugin "S" href_a (Some true) w0)) in
  let w' := run "S" href_a (burst (count 1) rest ++ [Elapse 299]) w in
  localStorage w' = localStorage w ∧
  snapshot_writes "S" (trace w') = snapshot_writes "S" (trace w) ∧
  length (timers w') = 1.
Proof.
  intros w0 rest.
  assert (Forall (λ gs : nat * value, gs.1 < 300) rest) as Hgaps.
  { repeat constructor; simpl; lia. }
  assert (299 < 300) as Hg by lia.
  split_and!; [reflexivity | exact Hgaps | exact Hg |].
  exact (nothing_written_during_burst "S" href_a w0 [] (count 1) rest 299 eq_refl Hgaps Hg).
Defined.

Lemma construction_by_holder_witness :
  let w := window_a {[ "pinia_S_sourceWindow" := href_a; "pinia_S" := js "{'count':7}" ]}
             (count 0) in
  localStorage w !! sourceKey "S" = Some href_a ∧
  localStorage (world_of (storageSyncPlugin "S" href_a (Some true) w)) = localStorage w.
Proof.
  intros w.
  assert (localStorage w !! sourceKey "S" = Some href_a) as Hs by (vm_compute; reflexivity).
  split; [exact Hs|].
  exact (construction_by_holder "S" href_a w Hs).
Defined.

Lemma listing_never_patches_later_witness :
  let w := window_a {[ "pinia_S" := js "{'count':7}" ]} (count 0) in
  let evs := [StorageChange (snapshot_event (js "{'count':9}")); Mutation (count 1);
              Elapse 300] in
  listening w = false ∧
  let w' := world_of (Listing.storageSyncPlugin "S" href_a (Some true) w) in
  patches (trace (run "S" href_a evs w')) = patches (trace w').
Proof.
  intros w evs. split; [reflexivity|].
  exact (listing_never_patches_later "S" href_a (Some true) w evs eq_refl).
Defined.

Lemma flush_reaches_other_window_witness :
  href_a ≠ href_b ∧
  JSON_parse (JSON_stringify (count 1)) = Some (count 1) ∧
  let wB := with_storage
              (λ _, localStorage (world_of (onDebounce "S" href_a (count 1)
                                              (window_a ∅ (count 0)))))
              (window_a ∅ (count 0)) in
  ∃ wB', onStorage "S" href_b
           (snapshot_notification "S" (JSON_stringify (count 1))) wB = Returned tt wB' ∧
    store_state wB' =
      (if bool_decide (JSON_stringify (store_state wB) = JSON_stringify (count 1))
       then store_state wB else patch_state (store_state wB) (count 1)) ∧
    localStorage wB' = localStorage wB.
Proof.
  assert (href_a ≠ href_b) as Hne by (vm_compute; discriminate).
  assert (JSON_parse (JSON_stringify (count 1)) = Some (count 1)) as Hp
    by (vm_compute; reflexivity).
  split_and!; [exact Hne | exact Hp |].
  exact (flush_reaches_other_window "S" href_a href_b (count 1) (count 1)
           (window_a ∅ (count 0)) (window_a ∅ (count 0)) Hne Hp).
Defined.

Lemma same_url_windows_do_not_sync_witness :
  (truthy (localStorage (window_a ∅ (count 0)) !! sourceKey "S") = false ∨
   localStorage (window_a ∅ (count 0)) !! sourceKey "S" = Some href_a) ∧
  let wB := with_storage
              (λ _, localStorage (world_of (onDebounce "S" href_a (count 1)
                                              (window_a ∅ (count 0)))))
              (window_a ∅ (count 0)) in
  ∃ wB', onStorage "S" href_a (snapshot_event (js "{'count':1}")) wB = Returned tt wB' ∧
    store_state wB' = store_state wB ∧
    patches (trace wB') = patches (trace wB).
Proof.
  assert (truthy (localStorage (window_a ∅ (count 0)) !! sourceKey "S") = false) as Hfree
    by (vm_compute; reflexivity).
  split; [left; exact Hfree|].
  exact (same_url_windows_do_not_sync "S" href_a (count 1) (window_a ∅ (count 0))
           (window_a ∅ (count 0)) (snapshot_event (js "{'count':1}")) (or_introl Hfree)).
Defined.

Lemma cold_start_after_flush_witness :
  href_a ≠ href_b ∧
  JSON_parse (JSON_stringify (count 1)) = Some (count 1) ∧
  let wB := with_storage
              (λ _, localStorage (world_of (onDebounce "S" href_a (count 1)
                                              (window_a ∅ (count 0)))))
              (window_a ∅ (count 0)) in
  ∃ wB', storageSyncPlugin "S" href_b (Some true) wB = Returned tt wB' ∧
    store_state wB' = patch_state (store_state wB) (count 1) ∧
    localStorage wB' !! sourceKey "S" = None ∧
    localStorage wB' !! acceptorKey "S" = Some "true" ∧
    localStorage wB' !! syncKey "S" = Some (JSON_stringify (count 1)).
Proof.
  assert (href_a ≠ href_b) as Hne by (vm_compute; discriminate).
  assert (JSON_parse (JSON_stringify (count 1)) = Some (count 1)) as Hp
    by (vm_compute; reflexivity).
  split_and!; [exact Hne | exact Hp |].
  exact (cold_start_after_flush "S" href_a href_b (count 1) (count 1)
           (window_a ∅ (count 0)) (window_a ∅ (count 0)) Hne Hp).
Defined.

(** Store [S] flushes; the snapshot that store [S_sourceWindow] had
    written is gone. *)
Example suffixed_store_loses_snapshot :
  let w := window_a {[ "pinia_S_sourceWindow" := js "{'n':1}" ]} (count 1) in
  localStorage w !! syncKey "S_sourceWindow" = Some (js "{'n':1}") ∧
  localStorage (world_of (onDebounce "S" href_a (count 1) w)) !! syncKey "S_sourceWindow" =
    None.
Proof. vm_compute. split; reflexivity. Qed.

(** Window B is open; window A flushes and keeps the marker; B applies
    the snapshot and, told of its own patch, flushes in turn: B's flush
    removes A's marker. *)
Example echo_releases_source :
  let wB0 := world_of (storageSyncPlugin "S" href_b (Some true)
                         (fresh_window ∅ (count 0))) in
  let wA := world_of (onDebounce "S" href_a (count 1)
                        (window_a (localStorage wB0) (count 1))) in
  let wB := run "S" href_b
              [StorageChange (snapshot_event (js "{'count':1}")); Mutation (count 1);
               Elapse 300]
              (with_storage (λ _, localStorage wA) wB0) in
  localStorage wA !! "pinia_S_sourceWindow" = Some href_a ∧
  store_state wB = count 1 ∧
  localStorage wB !! "pinia_S_sourceWindow" = None ∧
  localStorage wB !! "pinia_S_acceptorWindow" = Some "true".
Proof. vm_compute. split_and!; reflexivity. Qed.
